(** * LocalStorage of the seashell frontend: a shallow embedding

    This file models [src/unnamed/part_000] ([class LocalStorage], the
    Dexie-backed local persistence layer, and the helpers [mergeBetter] and
    [groupBy]) and the settings reducer of [src/unnamed/part_001], and proves
    the properties of its specification.  JS strings are modelled as [String.string] whose
    characters are the UTF-16 code units U+0000..U+00FF (one [ascii] each). *)

From Stdlib Require Import ZArith List String Ascii Bool Lia Floats.
From stdpp Require Import base gmap strings list sorting.

Open Scope Z_scope.

(* ------------------------------------------------------------------ *)
(** ** The [md5] npm package

    [md5(s)] UTF-8 encodes the string ([charenc.utf8.stringToBytes]), runs
    MD5 over the bytes and prints the digest as lowercase hex. *)

Module MD5.

Definition mask32 (x : Z) : Z := Z.land x (Z.ones 32).

Definition rotl32 (x : Z) (c : Z) : Z :=
  mask32 (Z.lor (Z.shiftl x c) (Z.shiftr x (32 - c))).

Definition not32 (x : Z) : Z := Z.lxor x (Z.ones 32).

(** UTF-8 encoding of one code unit U+0000..U+00FF. *)
Definition utf8_char (c : ascii) : list Z :=
  let n := Z.of_nat (nat_of_ascii c) in
  if n <? 128 then [n]
  else [Z.lor 192 (Z.shiftr n 6); Z.lor 128 (Z.land n 63)].

Fixpoint utf8 (s : string) : list Z :=
  match s with
  | EmptyString => []
  | String c s' => utf8_char c ++ utf8 s'
  end.

Definition le_bytes (n : nat) (x : Z) : list Z :=
  map (fun i => Z.land (Z.shiftr x (8 * Z.of_nat i)) 255) (seq 0 n).

Definition pad (bs : list Z) : list Z :=
  let len := Z.of_nat (length bs) in
  let zeros := Z.to_nat ((55 - len) mod 64) in
  bs ++ [128] ++ repeat 0 zeros ++ le_bytes 8 (8 * len).

Fixpoint words (bs : list Z) : list Z :=
  match bs with
  | b0 :: b1 :: b2 :: b3 :: rest =>
      (b0 + Z.shiftl b1 8 + Z.shiftl b2 16 + Z.shiftl b3 24) :: words rest
  | _ => []
  end.

Fixpoint blocks (fuel : nat) (ws : list Z) : list (list Z) :=
  match fuel with
  | O => []
  | S fuel' =>
      match ws with
      | [] => []
      | _ => firstn 16 ws :: blocks fuel' (skipn 16 ws)
      end
  end.

Definition S_tab : list Z :=
  [7;12;17;22;7;12;17;22;7;12;17;22;7;12;17;22;
   5;9;14;20;5;9;14;20;5;9;14;20;5;9;14;20;
   4;11;16;23;4;11;16;23;4;11;16;23;4;11;16;23;
   6;10;15;21;6;10;15;21;6;10;15;21;6;10;15;21].

Definition K_tab : list Z :=
  [3614090360;3905402710;606105819;3250441966;4118548399;1200080426;
   2821735955;4249261313;1770035416;2336552879;4294925233;2304563134;
   1804603682;4254626195;2792965006;1236535329;4129170786;3225465664;
   643717713;3921069994;3593408605;38016083;3634488961;3889429448;
   568446438;3275163606;4107603335;1163531501;2850285829;4243563512;
   1735328473;2368359562;4294588738;2272392833;1839030562;4259657740;
   2763975236;1272893353;4139469664;3200236656;681279174;3936430074;
   3572445317;76029189;3654602809;3873151461;530742520;3299628645;
   4096336452;1126891415;2878612391;4237533241;1700485571;2399980690;
   4293915773;2240044497;1873313359;4264355552;2734768916;1309151649;
   4149444226;3174756917;718787259;3951481745].

Definition step (m : list Z) (st : Z * Z * Z * Z) (i : nat) : Z * Z * Z * Z :=
  let '(a, b, c, d) := st in
  let '(f, g) :=
    if (i <? 16)%nat then (Z.lor (Z.land b c) (Z.land (not32 b) d), i)
    else if (i <? 32)%nat then (Z.lor (Z.land d b) (Z.land (not32 d) c), (5 * i + 1) mod 16)%nat
    else if (i <? 48)%nat then (Z.lxor b (Z.lxor c d), (3 * i + 5) mod 16)%nat
    else (Z.lxor c (Z.lor b (not32 d)), (7 * i) mod 16)%nat in
  let f' := mask32 (f + a + nth i K_tab 0 + nth g m 0) in
  (d, mask32 (b + rotl32 f' (nth i S_tab 0)), b, c).

Definition block (st : Z * Z * Z * Z) (m : list Z) : Z * Z * Z * Z :=
  let '(a, b, c, d) := st in
  let '(a', b', c', d') := fold_left (step m) (seq 0 64) st in
  (mask32 (a + a'), mask32 (b + b'), mask32 (c + c'), mask32 (d + d')).

Definition hex_digit (n : Z) : ascii :=
  if n <? 10 then ascii_of_nat (48 + Z.to_nat n)
  else ascii_of_nat (87 + Z.to_nat n).

Fixpoint hex (bs : list Z) : string :=
  match bs with
  | [] => EmptyString
  | b :: bs' =>
      String (hex_digit (Z.shiftr b 4)) (String (hex_digit (Z.land b 15)) (hex bs'))
  end.

Definition digest (bs : list Z) : string :=
  let ws := words (pad bs) in
  let '(a, b, c, d) :=
    fold_left block (blocks (length ws) ws)
      (1732584193, 4023233417, 2562383102, 271733878) in
  hex (le_bytes 4 a ++ le_bytes 4 b ++ le_bytes 4 c ++ le_bytes 4 d).

End MD5.

Definition md5 (s : string) : string := MD5.digest (MD5.utf8 s).

Example md5_empty : md5 "" = "d41d8cd98f00b204e9800998ecf8427e".
Proof. vm_compute. reflexivity. Qed.

Example md5_abc : md5 "abc" = "900150983cd24fb0d6963f7d28e17f72".
Proof. vm_compute. reflexivity. Qed.

Example md5_digest : md5 "message digest" = "f96b697d7cb7938d525a2f31aaf161d0".
Proof. vm_compute. reflexivity. Qed.

Example md5_two_blocks :
  md5 "12345678901234567890123456789012345678901234567890123456789012345678901234567890"
  = "57edf4a22be3c955ac49da2e2107b67a".
Proof. vm_compute. reflexivity. Qed.

(* ------------------------------------------------------------------ *)
(** ** String helpers *)

Fixpoint str_drop (n : nat) (s : string) : string :=
  match n, s with
  | O, _ => s
  | S n', String _ s' => str_drop n' s'
  | S _, EmptyString => EmptyString
  end.

Fixpoint str_take (n : nat) (s : string) : string :=
  match n, s with
  | O, _ => EmptyString
  | S n', String c s' => String c (str_take n' s')
  | S _, EmptyString => EmptyString
  end.

(** Length of the longest prefix made of characters satisfying [p]. *)
Fixpoint span_len (p : ascii -> bool) (s : string) : nat :=
  match s with
  | String c s' => if p c then S (span_len p s') else O
  | EmptyString => O
  end.

Definition not_semi (c : ascii) : bool := negb (Ascii.eqb c ";"%char).

(** JS [.]: any code unit except the line terminators (in U+0000..U+00FF:
    LF and CR). *)
Definition not_line_term (c : ascii) : bool :=
  negb (Ascii.eqb c (ascii_of_nat 10)) && negb (Ascii.eqb c (ascii_of_nat 13)).

Fixpoint find_map {A B} (f : A -> option B) (l : list A) : option B :=
  match l with
  | [] => None
  | x :: l' => match f x with Some y => Some y | None => find_map f l' end
  end.

(* ------------------------------------------------------------------ *)
(** ** The data-URI regular expression of [newFile]

    /^data:(G1)?(?:;(?!base64)(G2))?(?:;(base64))?,(G4)/ where G1 and G2
    are [^;]* and G4 is .*, matched with
    JS backtracking: each group lists its alternatives in the order the
    matcher tries them, and the first combination followed by a comma wins.
    An optional group whose body matches the empty string is rejected by
    the empty-iteration check, so group 1 never captures the empty string. *)

Definition group1_cands (s : string) : list (option string * string) :=
  map (fun k => (Some (str_take k s), str_drop k s))
      (rev (seq 1 (span_len not_semi s)))
  ++ [(None, s)].

Definition group2_cands (s : string) : list (option string * string) :=
  match s with
  | String c t =>
      if Ascii.eqb c ";"%char && negb (String.prefix "base64" t) then
        map (fun k => (Some (str_take k t), str_drop k t))
            (rev (seq 0 (S (span_len not_semi t))))
        ++ [(None, s)]
      else [(None, s)]
  | EmptyString => [(None, s)]
  end.

Definition group3_cands (s : string) : list (option string * string) :=
  if String.prefix ";base64" s then [(Some "base64", str_drop 7 s); (None, s)]
  else [(None, s)].

Definition group4 (s : string) : option string :=
  match s with
  | String c t =>
      if Ascii.eqb c ","%char then Some (str_take (span_len not_line_term t) t)
      else None
  | EmptyString => None
  end.

(** [rmatch]: [None] for [null], otherwise groups 1..4. *)
Definition match_data_uri (s : string)
  : option (option string * option string * option string * string) :=
  if String.prefix "data:" s then
    find_map (fun '(g1, r1) =>
      find_map (fun '(g2, r2) =>
        find_map (fun '(g3, r3) =>
          match group4 r3 with
          | Some g4 => Some (g1, g2, g3, g4)
          | None => None
          end) (group3_cands r2)) (group2_cands r1)) (group1_cands (str_drop 5 s))
  else None.

Example match_data_uri_b64 :
  match_data_uri "data:text/plain;charset=utf8;base64,aGk="
  = Some (Some "text/plain", Some "charset=utf8", Some "base64", "aGk=").
Proof. vm_compute. reflexivity. Qed.

Example match_data_uri_commas :
  match_data_uri "data:a,b,c" = Some (Some "a,b", None, None, "c").
Proof. vm_compute. reflexivity. Qed.

Example match_data_uri_none : match_data_uri "int main(){}" = None.
Proof. vm_compute. reflexivity. Qed.

(* ------------------------------------------------------------------ *)
(** ** [window.atob]: the forgiving-base64 decode of the HTML standard
    ([None] is the thrown [InvalidCharacterError]). *)

Definition is_ascii_ws (c : ascii) : bool :=
  existsb (fun n => Nat.eqb (nat_of_ascii c) n) [9; 10; 12; 13; 32]%nat.

Definition b64_value (c : ascii) : option Z :=
  let n := Z.of_nat (nat_of_ascii c) in
  if (65 <=? n) && (n <=? 90) then Some (n - 65)
  else if (97 <=? n) && (n <=? 122) then Some (n - 71)
  else if (48 <=? n) && (n <=? 57) then Some (n + 4)
  else if n =? 43 then Some 62
  else if n =? 47 then Some 63
  else None.

Fixpoint str_filter (p : ascii -> bool) (s : string) : string :=
  match s with
  | EmptyString => EmptyString
  | String c s' => if p c then String c (str_filter p s') else str_filter p s'
  end.

Definition byte_char (b : Z) : ascii := ascii_of_nat (Z.to_nat b).

(** Bits are accumulated in [buf] ([nbits] of them); every 24 bits give
    three bytes. *)
Fixpoint b64_bits (s : string) (buf : Z) (nbits : nat) : option string :=
  match s with
  | EmptyString =>
      match nbits with
      | 12%nat => Some (String (byte_char (Z.shiftr buf 4)) EmptyString)
      | 18%nat => Some (String (byte_char (Z.shiftr buf 10))
                          (String (byte_char (Z.land (Z.shiftr buf 2) 255)) EmptyString))
      | _ => Some EmptyString
      end
  | String c s' =>
      match b64_value c with
      | None => None
      | Some v =>
          let buf' := Z.lor (Z.shiftl buf 6) v in
          if Nat.eqb nbits 18 then
            match b64_bits s' 0 0 with
            | Some out =>
                Some (String (byte_char (Z.shiftr buf' 16))
                        (String (byte_char (Z.land (Z.shiftr buf' 8) 255))
                           (String (byte_char (Z.land buf' 255)) out)))
            | None => None
            end
          else b64_bits s' buf' (nbits + 6)
      end
  end.

Definition strip_padding (s : string) : string :=
  let n := String.length s in
  if Nat.eqb (n mod 4) 0 then
    if String.eqb (String.substring (n - 2) 2 s) "==" then String.substring 0 (n - 2) s
    else if String.eqb (String.substring (n - 1) 1 s) "=" then String.substring 0 (n - 1) s
    else s
  else s.

Definition atob (s : string) : option string :=
  let s1 := strip_padding (str_filter (fun c => negb (is_ascii_ws c)) s) in
  if Nat.eqb (String.length s1 mod 4) 1 then None
  else b64_bits s1 0 0.

Example atob_hi : atob "aGk=" = Some "hi".
Proof. vm_compute. reflexivity. Qed.

Example atob_abc : atob "YWJj" = Some "abc".
Proof. vm_compute. reflexivity. Qed.

Example atob_bad : atob "a" = None.
Proof. vm_compute. reflexivity. Qed.

(** The decoding step at the top of [newFile] ([None]: [atob] threw). *)
Definition decode_contents (base64 : bool) (contents : string) : option string :=
  match match_data_uri contents with
  | Some (mime, _, b64, payload) =>
      if base64 then
        if match b64 with Some _ => true | None => false end
           || match mime with Some m => String.eqb m "base64" | None => false end
        then atob payload
        else Some contents
      else Some contents
  | None => Some contents
  end.

(* ------------------------------------------------------------------ *)
(** ** Records of the four tables *)

Record FileStored := mkFile {
  file_id : string;
  file_project : string;
  file_name : string;
  file_contents : option string;   (* [undefined] after [writeFile(fid, undefined)] *)
  file_checksum : string;
  file_last_modified : Z;
  file_open : Z
}.

Record ProjectStored := mkProject {
  proj_id : string;
  proj_name : string;
  proj_runs : gmap string string;  (* question -> file *)
  proj_last_modified : Z
}.

Record SettingsStored := mkSettings {
  editor_mode : Z;
  font_size : Z;
  font : string;
  theme : Z;
  space_tab : Z;
  tab_width : Z
}.

(** [type] of a change.  Entries arriving from the backend are JSON, so a
    [type] outside the three declared ones is representable. *)
Inductive ChangeType :=
| CT_newFile
| CT_deleteFile
| CT_editFile
| CT_other (s : string).

Record ChangeLog := mkChange {
  cl_type : ChangeType;
  cl_contents : option string;
  cl_file : string;       (* [file.file] *)
  cl_project : string     (* [file.project] *)
}.

Definition is_editFile (t : ChangeType) : bool :=
  match t with CT_editFile => true | _ => false end.

(** The database.  [changeLogs] holds the rows of the [++id] table in
    descending key order (the order of [orderBy("id").reverse()]);
    [changeLogs_next] is the table's key generator.  [now] is what
    [Date.now()] returns. *)
Record DB := mkDB {
  files : gmap string FileStored;
  projects : gmap string ProjectStored;
  settings : option SettingsStored;
  changeLogs : list (positive * ChangeLog);
  changeLogs_next : positive;
  now : Z
}.

Definition set_files (st : DB) (fs : gmap string FileStored) : DB :=
  mkDB fs st.(projects) st.(settings) st.(changeLogs) st.(changeLogs_next) st.(now).
Definition set_projects (st : DB) (ps : gmap string ProjectStored) : DB :=
  mkDB st.(files) ps st.(settings) st.(changeLogs) st.(changeLogs_next) st.(now).
Definition set_changeLogs (st : DB) (l : list (positive * ChangeLog)) (next : positive) : DB :=
  mkDB st.(files) st.(projects) st.(settings) l next st.(now).

(* ------------------------------------------------------------------ *)
(** ** Errors, and the state monad of a Dexie transaction *)

Inductive error :=
| FileNotFound (fid : string)          (* LocalStorageError: file does not exist *)
| ProjectNotFound (pid : string)       (* LocalStorageError: project doesn't exist *)
| FileExists (pid name : string)       (* LocalStorageError: file already exists *)
| ConstraintError                      (* Dexie: add() of a key already present *)
| InvalidCharacterError                (* window.atob *)
| UnknownChange (c : ChangeLog).       (* applyChanges: unknown change *)

Inductive result (A : Type) :=
| Ok (a : A)
| Err (e : error).
Arguments Ok {A} a.
Arguments Err {A} e.

(** A rejected promise carries the state reached when it was thrown; the
    enclosing [transaction] then rolls it back. *)
Definition M (A : Type) : Type := DB -> result A * DB.

Global Instance M_ret : MRet M := fun A a st => (Ok a, st).
Global Instance M_bind : MBind M := fun A B k m st =>
  match m st with
  | (Ok a, st') => k a st'
  | (Err e, st') => (Err e, st')
  end.

Definition throw {A} (e : error) : M A := fun st => (Err e, st).

Definition gets {A} (f : DB -> A) : M A := fun st => (Ok (f st), st).

(** [db.transaction("rw", tbs, body)]: all writes of [body] commit, or
    none does. Nested calls join the enclosing transaction. *)
Definition transaction {A} (body : M A) : M A := fun st =>
  match body st with
  | (Ok a, st') => (Ok a, st')
  | (Err e, _) => (Err e, st)
  end.

Fixpoint forM_ {A} (l : list A) (f : A -> M unit) : M unit :=
  match l with
  | [] => mret tt
  | x :: l' => f x ;; forM_ l' f
  end.

(* ------------------------------------------------------------------ *)
(** ** Dexie table operations *)

Definition files_get (fid : string) : M (option FileStored) :=
  gets (fun st => st.(files) !! fid).

(** [Table.update(key, changes)] resolves to the number of updated rows:
    0, without error, when the key is absent. *)
Definition files_update (fid : string) (upd : FileStored -> FileStored) : M Z :=
  fun st => match st.(files) !! fid with
            | Some f => (Ok 1, set_files st (<[fid := upd f]> st.(files)))
            | None => (Ok 0, st)
            end.

Definition files_delete (fid : string) : M unit :=
  fun st => (Ok tt, set_files st (delete fid st.(files))).

Definition files_add (f : FileStored) : M string :=
  fun st => match st.(files) !! f.(file_id) with
            | Some _ => (Err ConstraintError, st)
            | None => (Ok f.(file_id), set_files st (<[f.(file_id) := f]> st.(files)))
            end.

(** [files.where({name, project}).count()] *)
Definition files_count_name_project (name pid : string) : M nat :=
  gets (fun st => size (filter (fun kf : string * FileStored =>
                     kf.2.(file_name) = name /\ kf.2.(file_project) = pid) st.(files))).

(** [files.where("project").equals(pid).delete()] *)
Definition files_delete_project (pid : string) : M unit :=
  fun st => (Ok tt, set_files st (filter (fun kf : string * FileStored =>
                                      kf.2.(file_project) <> pid) st.(files))).

Definition projects_get (pid : string) : M (option ProjectStored) :=
  gets (fun st => st.(projects) !! pid).

Definition projects_update (pid : string) (upd : ProjectStored -> ProjectStored) : M Z :=
  fun st => match st.(projects) !! pid with
            | Some p => (Ok 1, set_projects st (<[pid := upd p]> st.(projects)))
            | None => (Ok 0, st)
            end.

Definition projects_add (p : ProjectStored) : M string :=
  fun st => match st.(projects) !! p.(proj_id) with
            | Some _ => (Err ConstraintError, st)
            | None => (Ok p.(proj_id), set_projects st (<[p.(proj_id) := p]> st.(projects)))
            end.

Definition projects_delete (pid : string) : M unit :=
  fun st => (Ok tt, set_projects st (delete pid st.(projects))).

(** [changeLogs.orderBy("id").reverse().limit(1).first()] *)
Definition changeLogs_top : M (option (positive * ChangeLog)) :=
  gets (fun st => head st.(changeLogs)).

Definition changeLogs_delete (k : positive) : M unit :=
  fun st => (Ok tt, set_changeLogs st
                      (List.filter (fun r => negb (Pos.eqb r.1 k)) st.(changeLogs))
                      st.(changeLogs_next)).

(** [changeLogs.put(change)] of a change without [id]: the key generator
    assigns the next key. *)
Definition changeLogs_put (c : ChangeLog) : M positive :=
  fun st => let k := st.(changeLogs_next) in
            (Ok k, set_changeLogs st ((k, c) :: st.(changeLogs)) (Pos.succ k)).

Definition changeLogs_clear : M unit :=
  fun st => (Ok tt, set_changeLogs st [] st.(changeLogs_next)).

(** IndexedDB compares string keys code unit by code unit. *)
Definition key_le (a b : string) : Prop := String.leb a b = true.

#[global] Instance key_le_dec : RelDecision key_le :=
  fun a b => decide (String.leb a b = true).

(** The rows of a table, or of a range of one of its indexes whose index
    values are all equal, come in primary-key order. *)
Definition key_le_fst {V} (kv kw : string * V) : Prop := key_le kv.1 kw.1.

#[global] Instance key_le_fst_dec {V} : RelDecision (@key_le_fst V) :=
  fun kv kw => key_le_dec kv.1 kw.1.

Definition by_key {V} (m : gmap string V) : list V :=
  (merge_sort key_le_fst (map_to_list m)).*2.

(** [files.toArray()] *)
Definition files_toArray : M (list FileStored) :=
  gets (fun st => by_key st.(files)).

(** [files.where("project").equals(pid)] *)
Definition files_where_project (pid : string) : M (list FileStored) :=
  gets (fun st => by_key (filter (fun kf : string * FileStored =>
                                    kf.2.(file_project) = pid) st.(files))).

(** [files.where({project: pid, open: o})], on the index [[project+open]] *)
Definition files_where_project_open (pid : string) (o : Z) : M (list FileStored) :=
  gets (fun st => by_key (filter (fun kf : string * FileStored =>
                    kf.2.(file_project) = pid /\ kf.2.(file_open) = o) st.(files))).

(** [projects.toCollection()] *)
Definition projects_toCollection : M (list ProjectStored) :=
  gets (fun st => by_key st.(projects)).

(** [projects.put(p)]: insert or replace under the key [p.id]. *)
Definition projects_put (p : ProjectStored) : M string :=
  fun st => (Ok p.(proj_id), set_projects st (<[p.(proj_id) := p]> st.(projects))).

(** [settings.get(0)]: [settings] is the row of key 0. *)
Definition settings_get : M (option SettingsStored) :=
  gets (fun st => st.(settings)).

(** [settings.put({id: 0, ...})] *)
Definition settings_put (s : SettingsStored) : M Z :=
  fun st => (Ok 0, mkDB st.(files) st.(projects) (Some s) st.(changeLogs)
                        st.(changeLogs_next) st.(now)).

(** [changeLogs.orderBy("id").reverse().toArray()] *)
Definition changeLogs_toArray_desc : M (list (positive * ChangeLog)) :=
  gets (fun st => st.(changeLogs)).

(** [changeLogs.count()] *)
Definition changeLogs_count : M nat :=
  gets (fun st => length st.(changeLogs)).

(* ------------------------------------------------------------------ *)
(** ** [class LocalStorage] *)

Module LocalStorage.

Definition readFile (fid : string) : M FileStored :=
  transaction (
    file ← files_get fid;
    match file with
    | None => throw (FileNotFound fid)
    | Some f => mret f
    end).

Definition getProject (pid : string) : M ProjectStored :=
  transaction (
    p ← projects_get pid;
    match p with
    | None => throw (ProjectNotFound pid)
    | Some p => mret p
    end).

Definition topChangeLog : M (option (positive * ChangeLog)) :=
  transaction changeLogs_top.

(** [if (top.id)]: keys of the [++id] table are positive, hence truthy. *)
Definition popChangeLog : M (option (positive * ChangeLog)) :=
  transaction (
    top ← topChangeLog;
    match top with
    | Some (k, c) => changeLogs_delete k ;; mret (Some (k, c))
    | None => mret None
    end).

(** The top entry is read before the transaction; [top.contents = ...]
    only mutates that local copy. *)
Definition pushChangeLog (change : ChangeLog) : M positive :=
  top ← topChangeLog;
  transaction (
    (match top with
     | Some (_, t) =>
         if is_editFile change.(cl_type) && is_editFile t.(cl_type)
         then _ ← popChangeLog; mret tt
         else mret tt
     | None => mret tt
     end) ;;
    changeLogs_put change).

Definition clearChangeLogs : M unit :=
  transaction changeLogs_clear.

Definition writeFile (fid : string) (contents : option string) : M unit :=
  let checksum := match contents with None => ""%string | Some c => md5 c end in
  transaction (
    file ← readFile fid;
    _ ← pushChangeLog (mkChange CT_editFile contents file.(file_name) file.(file_project));
    t ← gets now;
    _ ← files_update fid (fun f => mkFile f.(file_id) f.(file_project) f.(file_name)
                                     contents checksum t f.(file_open));
    mret tt).

(** [dbProj] is the object built by [getProject], which throws when the
    project is absent; the [if (! dbProj)] branch tests an object, which is
    always truthy. *)
Definition deleteFile (id : string) : M unit :=
  transaction (
    file ← readFile id;
    files_delete id ;;
    _ ← pushChangeLog (mkChange CT_deleteFile None file.(file_name) file.(file_project));
    dbProj ← getProject file.(file_project);
    let runs := filter (fun qv : string * string => qv.2 <> id) dbProj.(proj_runs) in
    _ ← projects_update file.(file_project)
          (fun _ => mkProject dbProj.(proj_id) dbProj.(proj_name) runs
                      dbProj.(proj_last_modified));
    mret tt).

Definition renameFile (fid : string) (newName : string) : M unit :=
  transaction (
    file ← readFile fid;
    _ ← files_update fid (fun f => mkFile f.(file_id) f.(file_project) newName
                                     f.(file_contents) f.(file_checksum)
                                     f.(file_last_modified) f.(file_open));
    _ ← pushChangeLog (mkChange CT_newFile file.(file_contents) newName file.(file_project));
    _ ← pushChangeLog (mkChange CT_deleteFile None file.(file_name) file.(file_project));
    mret tt).

(** What [p.runs[question] || false] can be besides [false]: a stored file
    name, or a member [runs] inherits from [Object.prototype] (a function,
    or for ["__proto__"] the prototype itself), all truthy. *)
Inductive RunFile :=
| RunName (s : string)
| RunInherited (k : string).

(** The names every object inherits from [Object.prototype]. *)
Definition object_prototype_names : list string :=
  ["constructor"; "__defineGetter__"; "__defineSetter__"; "hasOwnProperty";
   "__lookupGetter__"; "__lookupSetter__"; "isPrototypeOf"; "propertyIsEnumerable";
   "toString"; "valueOf"; "__proto__"; "toLocaleString"].

(** [p.runs[question] || false]: [None] is [false]; an own entry holding
    the empty file name (falsy) gives it, as does a question that is
    neither an own key nor inherited. *)
Definition getFileToRun (proj question : string) : M (option RunFile) :=
  transaction (
    p ← getProject proj;
    mret (match p.(proj_runs) !! question with
          | Some v => if String.eqb v "" then None else Some (RunName v)
          | None => if existsb (String.eqb question) object_prototype_names
                    then Some (RunInherited question) else None
          end)).

(** [current.runs[question] = filename] creates or overwrites an own
    entry, except for ["__proto__"], whose inherited setter ignores a
    string. *)
Definition setFileToRun (pid question filename : string) : M unit :=
  transaction (
    current ← getProject pid;
    _ ← projects_update pid
          (fun p => mkProject p.(proj_id) p.(proj_name)
                      (if String.eqb question "__proto__" then current.(proj_runs)
                       else <[question := filename]> current.(proj_runs))
                      p.(proj_last_modified));
    mret tt).

(** [newFile(pid, name, contents = "", base64 = false)]; returns the stored
    record the [FileBrief] is built from.  [if (! project)] is dead for the
    reason given at [deleteFile]. *)
Definition newFile (pid name contents : string) (base64 : bool) : M FileStored :=
  match decode_contents base64 contents with
  | None => throw InvalidCharacterError
  | Some contents =>
      let checksum := md5 contents in
      transaction (
        let fid := md5 (pid ++ name) in
        n ← files_count_name_project name pid;
        if (0 <? n)%nat then throw (FileExists pid name)
        else
          _ ← getProject pid;
          t ← gets now;
          _ ← files_add (mkFile fid pid name (Some contents) checksum t 0);
          _ ← pushChangeLog (mkChange CT_newFile (Some contents) name pid);
          readFile fid)
  end.

Definition newProject (name : string) : M ProjectStored :=
  let pid := md5 name in
  transaction (
    t ← gets now;
    _ ← projects_add (mkProject pid name ∅ t);
    getProject pid).

Definition deleteProject (pid : string) : M unit :=
  transaction (
    projects_delete pid ;;
    files_delete_project pid).

Definition addOpenTab (proj question fid : string) : M unit :=
  transaction (
    _ ← files_update fid (fun f => mkFile f.(file_id) f.(file_project) f.(file_name)
                                     f.(file_contents) f.(file_checksum)
                                     f.(file_last_modified) 1);
    mret tt).

Definition removeOpenTab (proj question fid : string) : M unit :=
  transaction (
    _ ← files_update fid (fun f => mkFile f.(file_id) f.(file_project) f.(file_name)
                                     f.(file_contents) f.(file_checksum)
                                     f.(file_last_modified) 0);
    mret tt).

(** One iteration of the [changeLogs] loop of [applyChanges]; [newFile] is
    called with its default [contents = ""] when [change.contents] is
    undefined, and with [base64 = false]. *)
Definition applyChange (change : ChangeLog) : M unit :=
  let pid := md5 change.(cl_project) in
  let fid := md5 (pid ++ change.(cl_file)) in
  match change.(cl_type) with
  | CT_deleteFile => deleteFile fid
  | CT_editFile => writeFile fid change.(cl_contents)
  | CT_newFile =>
      _ ← newFile pid change.(cl_file) (default ""%string change.(cl_contents)) false;
      mret tt
  | CT_other _ => throw (UnknownChange change)
  end.

(** The body of the [applyChanges] transaction. *)
Definition applyChanges_body (changeLogs : list ChangeLog) (newProjects : list string)
    (deletedProjects : list string) : M unit :=
  forM_ newProjects (fun proj => _ ← newProject proj; mret tt) ;;
  forM_ changeLogs applyChange ;;
  forM_ deletedProjects deleteProject ;;
  clearChangeLogs.

Definition applyChanges (changeLogs : list ChangeLog) (newProjects : list string)
    (deletedProjects : list string) : M unit :=
  transaction (applyChanges_body changeLogs newProjects deletedProjects).

(** [settings || new Settings()]: [None] stands for the default-constructed
    [Settings] returned when no row is stored. *)
Definition getSettings : M (option SettingsStored) :=
  transaction settings_get.

Definition setSettings (s : SettingsStored) : M unit :=
  transaction (
    _ ← settings_put (mkSettings s.(editor_mode) s.(font_size) s.(font) s.(theme)
                                 s.(space_tab) s.(tab_width));
    mret tt).

(** Returns the records the [FileBrief]s are built from. *)
Definition getProjectFiles (pid : string) : M (list FileStored) :=
  transaction (
    p ← getProject pid;
    t ← gets now;
    _ ← projects_put (mkProject p.(proj_id) p.(proj_name) p.(proj_runs) t);
    files_where_project pid).

Definition getProjects : M (list ProjectStored) :=
  transaction projects_toCollection.

Definition getAllFiles : M (list FileStored) :=
  transaction files_toArray.

(** Not wrapped in a transaction; [question] is not used. *)
Definition getOpenTabs (proj question : string) : M (list FileStored) :=
  files_where_project_open proj 1.

Definition getChangeLogs : M (list (positive * ChangeLog)) :=
  transaction changeLogs_toArray_desc.

Definition countChangeLogs : M nat :=
  transaction changeLogs_count.

End LocalStorage.

(* ------------------------------------------------------------------ *)
(** ** Concrete stores *)

Module Fixtures.
Import LocalStorage.

(** A freshly opened database. *)
Definition db0 : DB := mkDB ∅ ∅ None [] 1 0.

Definition pid1 : string := md5 "p1".

(** Project ["p1"] with no file. *)
Definition db_p1 : DB := snd (newProject "p1" db0).

Definition fid_a : string := md5 (pid1 ++ "q1/a.c").

(** Project ["p1"] with the file ["q1/a.c"]. *)
Definition db_a : DB := snd (newFile pid1 "q1/a.c" "int main(){}" false db_p1).

Definition fid_b : string := md5 (pid1 ++ "q1/b.c").

(** Project ["p1"] with the files ["q1/a.c"] and ["q1/b.c"]. *)
Definition db_ab : DB := snd (newFile pid1 "q1/b.c" "" false db_a).

(** [db_a] after renaming ["q1/a.c"] to ["q1/b.c"]: the record keeps the
    key [fid_a]. *)
Definition db_renamed : DB := snd (renameFile fid_a "q1/b.c" db_a).

(** [db_a] with the Projects table emptied but the file of ["p1"] still
    stored: the state the [if (! dbProj)] branch of [deleteFile] is written
    for. *)
Definition db_orphan : DB := set_projects db_a ∅.

End Fixtures.

(* ------------------------------------------------------------------ *)
(** ** JavaScript values, for the helpers at the end of
    [src/unnamed/part_000] and the settings reducer
    ([src/unnamed/part_001])

    A JS object is its class tag and its own enumerable string-keyed
    properties, listed in [[OwnPropertyKeys]] order: the array-index keys
    in ascending numeric order, then the other keys in the order they
    were created.  [Fun] stands for a function ([typeof] ["function"]).
    The key ["__proto__"] is treated as an ordinary key: the statements
    below exclude it where the assignment [o["__proto__"] = v] would
    differ. *)

Module JS.

Inductive value :=
| Undefined
| Null
| Bool (b : bool)
| Num (n : float)
| Str (s : string)
| Fun (name : string)
| Obj (cls : string) (props hidden : list (string * value)).

(** Canonical array index: a decimal numeral without leading zero whose
    value is below [2^32 - 1]. *)
Definition digit (c : ascii) : option N :=
  let n := N.of_nat (nat_of_ascii c) in
  if (48 <=? n)%N && (n <=? 57)%N then Some (n - 48)%N else None.

Fixpoint digits (s : string) (acc : N) : option N :=
  match s with
  | EmptyString => Some acc
  | String c s' => match digit c with
                   | Some d => digits s' (10 * acc + d)%N
                   | None => None
                   end
  end.

Definition array_index (s : string) : option N :=
  match s with
  | EmptyString => None
  | String c s' =>
      if Ascii.eqb c "0"%char && negb (String.eqb s' "") then None
      else match digits s 0 with
           | Some n => if (n <? 4294967295)%N then Some n else None
           | None => None
           end
  end.

(** [o[k]] on the own properties. *)
Fixpoint get {V} (k : string) (ps : list (string * V)) : option V :=
  match ps with
  | [] => None
  | (k', v) :: ps' => if String.eqb k k' then Some v else get k ps'
  end.

(** [o[k] = v] on an existing property: the key keeps its place. *)
Fixpoint replace {V} (k : string) (v : V) (ps : list (string * V)) : list (string * V) :=
  match ps with
  | [] => []
  | (k', v') :: ps' =>
      if String.eqb k k' then (k', v) :: ps' else (k', v') :: replace k v ps'
  end.

(** A new array-index key goes after the smaller indices. *)
Fixpoint insert_index {V} (n : N) (k : string) (v : V) (ps : list (string * V))
  : list (string * V) :=
  match ps with
  | [] => [(k, v)]
  | (k', v') :: ps' =>
      match array_index k' with
      | Some n' => if (n <? n')%N then (k, v) :: ps else (k', v') :: insert_index n k v ps'
      | None => (k, v) :: ps
      end
  end.

(** [o[k] = v]. *)
Definition set {V} (ps : list (string * V)) (k : string) (v : V) : list (string * V) :=
  match get k ps with
  | Some _ => replace k v ps
  | None => match array_index k with
            | Some n => insert_index n k v ps
            | None => ps ++ [(k, v)]
            end
  end.

(** [o.k] for any value (a missing property reads [undefined]). *)
Definition prop (o : value) (k : string) : value :=
  match o with
  | Obj _ ps hs => match get k (ps ++ hs) with Some v => v | None => Undefined end
  | _ => Undefined
  end.

(** Ramda's [mergeWithKey] as called by [mergeWith(fn, l, r)]:
<<
    var result = {};
    for (k in l) if (_has(k, l)) result[k] = _has(k, r) ? fn(l[k], r[k]) : l[k];
    for (k in r) if (_has(k, r) && !_has(k, result)) result[k] = r[k];
>>
    [for (k in o)] visits the enumerable own properties [props]; [_has]
    also sees the [hidden] ones.  [fs] holds [fun va => fn va r[k]] for
    each own key [k] of [r], enumerable or not. *)
Definition merge_props (fs : list (string * (value -> value)))
    (l r : list (string * value)) : list (string * value) :=
  let result := fold_left (fun acc (kv : string * value) =>
                  set acc kv.1 (match get kv.1 fs with Some f => f kv.2 | None => kv.2 end))
                  l [] in
  fold_left (fun acc (kv : string * value) =>
               match get kv.1 acc with Some _ => acc | None => set acc kv.1 kv.2 end)
            r result.

(** [mergeBetter] (part_000, line 461). *)
Fixpoint mergeBetter (a b : value) {struct b} : value :=
  match a, b with
  | Obj _ pa _, Obj _ pb hb =>
      Obj "Object"
        (merge_props (map (fun '(k, vb) => (k, fun va => mergeBetter va vb)) pb ++
                      map (fun '(k, vb) => (k, fun va => mergeBetter va vb)) hb) pa pb) []
  | _, _ => b
  end.

(** [groupBy] (part_000, lines 462-474).  The accumulator [acc] is an
    array, [hash] its own properties.  [None]: the code leaves the model,
    for a key that is ["length"] or is inherited by arrays with a truthy
    value ([inherited k]): [acc[k].push] is then not a function (a
    [TypeError]), or for ["__proto__"] the item is pushed onto
    [Array.prototype]. *)
Definition groupBy {A} (inherited : string -> bool) (lst : list A) (grp : A -> string)
  : option (list (list A)) :=
  match fold_left (fun (acc : option (list (string * list A))) item =>
          match acc with
          | None => None
          | Some hash =>
              let k := grp item in
              if String.eqb k "length" || inherited k then None
              else match get k hash with
                   | Some g => Some (replace k (g ++ [item]) hash)
                   | None => Some (set hash k [item])
                   end
          end) lst (Some []) with
  | Some hash => Some (map snd hash)
  | None => None
  end.

(** The properties with a truthy value an array inherits from
    [Array.prototype] and [Object.prototype] (ES2023). *)
Definition es2023_array_inherited (k : string) : bool :=
  existsb (String.eqb k)
    ["at"; "concat"; "constructor"; "copyWithin"; "entries"; "every"; "fill";
     "filter"; "find"; "findIndex"; "findLast"; "findLastIndex"; "flat"; "flatMap";
     "forEach"; "includes"; "indexOf"; "join"; "keys"; "lastIndexOf"; "map"; "pop";
     "push"; "reduce"; "reduceRight"; "reverse"; "shift"; "slice"; "some"; "sort";
     "splice"; "toLocaleString"; "toReversed"; "toSorted"; "toSpliced"; "toString";
     "unshift"; "values"; "with"; "__defineGetter__"; "__defineSetter__";
     "__lookupGetter__"; "__lookupSetter__"; "__proto__"; "hasOwnProperty";
     "isPrototypeOf"; "propertyIsEnumerable"; "valueOf"].

(** First occurrences, in order. *)
Definition dedup (l : list string) : list string :=
  fold_left (fun acc k => if decide (k ∈ acc) then acc else acc ++ [k]) l [].

(** Array-index keys in non-decreasing numeric order. *)
Definition index_le (a b : string) : Prop :=
  match array_index a, array_index b with
  | Some x, Some y => (x <= y)%N
  | _, _ => False
  end.

End JS.

(** [settingsReducer] (part_001, lines 21-32).  The result is the value
    returned and the [state] object as the call leaves it ([state.updated]
    is assigned in place); [now] is [(new Date()).getTime()].  [None]: a
    [TypeError] ([action] is [null], or [state] is [null] or a primitive,
    whose property assignment throws in module code). *)
Module SettingsReducer.
Import JS.

Definition updateSettings : string := "settings_update".
Definition updateEditorRatio : string := "settings_editor_ratio_update".

Definition default_state : value :=
  Obj "Object" [("font", Str "Consolas"); ("fontSize", Num 13%float);
                ("editorMode", Num 0%float); ("tabWidth", Num 1%float);
                ("theme", Num 1%float); ("offlineMode", Num 0%float);
                ("editorRatio", Num 0.5%float); ("updated", Num 0%float)] [].

Definition default_action : value :=
  Obj "Object" [("type", Str ""); ("payload", Obj "Object" [] [])] [].

(** [state.updated = t] on an object: a non-enumerable own [updated]
    (a writable data property) is overwritten in place, otherwise the
    enumerable property is set. *)
Definition set_updated (cls : string) (ps hs : list (string * value)) (t : float) : value :=
  match get "updated" hs with
  | Some _ => Obj cls ps (replace "updated" (Num t) hs)
  | None => Obj cls (set ps "updated" (Num t)) hs
  end.

Definition settingsReducer (now : float) (state action : value) : option (value * value) :=
  let state := match state with Undefined => default_state | s => s end in
  let action := match action with Undefined => default_action | a => a end in
  let update (b : value) :=
    match state with
    | Obj cls ps hs =>
        let state' := set_updated cls ps hs now in
        Some (mergeBetter state' b, state')
    | Fun _ => Some (b, state)
    | _ => None
    end in
  match action with
  | Null => None
  | _ =>
      match prop action "type" with
      | Str t =>
          if String.eqb t updateSettings then update (prop action "payload")
          else if String.eqb t updateEditorRatio
          then update (Obj "Object" [("editorRatio", prop action "payload")] [])
          else Some (state, state)
      | _ => Some (state, state)
      end
  end.

End SettingsReducer.

(* ------------------------------------------------------------------ *)
(** ** Laws of the monad and of the table operations *)

(** The [++id] table is well formed: keys strictly decrease down the list
    and all lie below the key generator. *)
Fixpoint log_ok (l : list (positive * ChangeLog)) (bound : positive) : Prop :=
  match l with
  | [] => True
  | (k, _) :: l' => (k < bound)%positive /\ log_ok l' k
  end.

(** What [pushChangeLog c] leaves below the new entry. *)
Definition coalesce (c : ChangeLog) (l : list (positive * ChangeLog)) :=
  match l with
  | (_, t) :: l' => if is_editFile c.(cl_type) && is_editFile t.(cl_type) then l' else l
  | [] => []
  end.

Definition mkFile_update (f : FileStored) (contents : option string) (checksum : string)
    (t : Z) : FileStored :=
  mkFile f.(file_id) f.(file_project) f.(file_name) contents checksum t f.(file_open).

Lemma md5_eq s : md5 s = MD5.digest (MD5.utf8 s).
Proof. reflexivity. Qed.

Opaque md5.

Section Laws.

Lemma ret_eq {A} (a : A) st : (mret a : M A) st = (Ok a, st).
Proof. reflexivity. Qed.

Lemma bind_ok {A B} (m : M A) (k : A -> M B) st a st' :
  m st = (Ok a, st') -> (m ≫= k) st = k a st'.
Proof. intros H. unfold mbind, M_bind. rewrite H. reflexivity. Qed.

Lemma bind_err {A B} (m : M A) (k : A -> M B) st e st' :
  m st = (Err e, st') -> (m ≫= k) st = (Err e, st').
Proof. intros H. unfold mbind, M_bind. rewrite H. reflexivity. Qed.

Lemma transaction_ok {A} (body : M A) st a st' :
  body st = (Ok a, st') -> transaction body st = (Ok a, st').
Proof. intros H. unfold transaction. rewrite H. reflexivity. Qed.

Lemma transaction_err {A} (body : M A) st e st' :
  body st = (Err e, st') -> transaction body st = (Err e, st).
Proof. intros H. unfold transaction. rewrite H. reflexivity. Qed.

(** A transaction either succeeds or leaves the store as it found it. *)
Lemma transaction_rollback {A} (body : M A) st e st' :
  transaction body st = (Err e, st') -> st' = st.
Proof.
  unfold transaction. destruct (body st) as [[a|e'] s]; intros H; inversion H; auto.
Qed.

Lemma readFile_found st fid f :
  st.(files) !! fid = Some f -> LocalStorage.readFile fid st = (Ok f, st).
Proof.
  intros H. unfold LocalStorage.readFile, transaction, mbind, M_bind, files_get, gets.
  rewrite H. reflexivity.
Qed.

Lemma readFile_inv_ok st fid f st' :
  LocalStorage.readFile fid st = (Ok f, st') -> st.(files) !! fid = Some f /\ st' = st.
Proof.
  destruct (st.(files) !! fid) as [f'|] eqn:E.
  - rewrite (readFile_found _ _ _ E). intros H. inversion H; subst. auto.
  - unfold LocalStorage.readFile, transaction, mbind, M_bind, files_get, gets.
    rewrite E. discriminate.
Qed.

Lemma readFile_missing st fid :
  st.(files) !! fid = None -> LocalStorage.readFile fid st = (Err (FileNotFound fid), st).
Proof.
  intros H. unfold LocalStorage.readFile, transaction, mbind, M_bind, files_get, gets.
  rewrite H. reflexivity.
Qed.

Lemma getProject_found st pid p :
  st.(projects) !! pid = Some p -> LocalStorage.getProject pid st = (Ok p, st).
Proof.
  intros H. unfold LocalStorage.getProject, transaction, mbind, M_bind, projects_get, gets.
  rewrite H. reflexivity.
Qed.

Lemma getProject_missing st pid :
  st.(projects) !! pid = None ->
  LocalStorage.getProject pid st = (Err (ProjectNotFound pid), st).
Proof.
  intros H. unfold LocalStorage.getProject, transaction, mbind, M_bind, projects_get, gets.
  rewrite H. reflexivity.
Qed.

Lemma files_update_missing st fid upd :
  st.(files) !! fid = None -> files_update fid upd st = (Ok 0, st).
Proof. intros H. unfold files_update. rewrite H. reflexivity. Qed.

Lemma files_update_found st fid upd f :
  st.(files) !! fid = Some f ->
  files_update fid upd st = (Ok 1, set_files st (<[fid := upd f]> st.(files))).
Proof. intros H. unfold files_update. rewrite H. reflexivity. Qed.

End Laws.

Section ChangeLogLaws.

Lemma log_ok_weaken l b b' : log_ok l b -> (b <= b')%positive -> log_ok l b'.
Proof.
  destruct l as [|[k t] l']; simpl; [auto|]. intros [Hk Hl] Hb. split; [lia|exact Hl].
Qed.

Lemma filter_below l b b' :
  log_ok l b -> (b <= b')%positive ->
  List.filter (fun r : positive * ChangeLog => negb (Pos.eqb r.1 b')) l = l.
Proof.
  revert b. induction l as [|[k t] l' IH]; intros b; simpl; [auto|].
  intros [Hk Hl] Hb.
  assert (Pos.eqb k b' = false) as -> by (apply Pos.eqb_neq; lia). simpl.
  f_equal. apply (IH k); [exact Hl | lia].
Qed.

Lemma log_ok_coalesce c l b : log_ok l b -> log_ok (coalesce c l) b.
Proof.
  destruct l as [|[k t] l']; simpl; [auto|]. intros [Hk Hl].
  destruct (is_editFile (cl_type c) && is_editFile (cl_type t)).
  - eapply log_ok_weaken; [exact Hl | lia].
  - simpl. auto.
Qed.

Lemma topChangeLog_eq st :
  LocalStorage.topChangeLog st = (Ok (head st.(changeLogs)), st).
Proof. reflexivity. Qed.

(** [pushChangeLog c] puts [c] under the generator's next key on top of
    [coalesce c] of the log. *)
Lemma pushChangeLog_eq st c :
  (is_editFile c.(cl_type) = false \/ log_ok st.(changeLogs) st.(changeLogs_next)) ->
  LocalStorage.pushChangeLog c st =
  (Ok st.(changeLogs_next),
   set_changeLogs st ((st.(changeLogs_next), c) :: coalesce c st.(changeLogs))
                  (Pos.succ st.(changeLogs_next))).
Proof.
  intros Hc. destruct st as [fs ps se L nx nw]. simpl in *.
  unfold LocalStorage.pushChangeLog.
  erewrite bind_ok by apply topChangeLog_eq. simpl.
  destruct L as [|[k t] L']; simpl.
  - reflexivity.
  - destruct (is_editFile (cl_type c)) eqn:Ec; simpl.
    + destruct (is_editFile (cl_type t)) eqn:Et; simpl; [|reflexivity].
      destruct Hc as [Hc|[Hk Hl]]; [discriminate|].
      unfold transaction, mbind, M_bind, changeLogs_put, changeLogs_delete,
        LocalStorage.popChangeLog, LocalStorage.topChangeLog, transaction, changeLogs_top,
        gets, mret, M_ret; simpl.
      rewrite Pos.eqb_refl. simpl.
      rewrite (filter_below L' k k Hl) by lia. reflexivity.
    + reflexivity.
Qed.

Lemma pushChangeLog_plain st c :
  is_editFile c.(cl_type) = false ->
  LocalStorage.pushChangeLog c st =
  (Ok st.(changeLogs_next),
   set_changeLogs st ((st.(changeLogs_next), c) :: st.(changeLogs))
                  (Pos.succ st.(changeLogs_next))).
Proof.
  intros Hc. rewrite pushChangeLog_eq by auto. do 3 f_equal.
  destruct (changeLogs st) as [|[k t] L']; simpl; [reflexivity|]. rewrite Hc. reflexivity.
Qed.

Lemma pushChangeLog_log_ok st c st' k :
  log_ok st.(changeLogs) st.(changeLogs_next) ->
  LocalStorage.pushChangeLog c st = (Ok k, st') ->
  log_ok st'.(changeLogs) st'.(changeLogs_next).
Proof.
  intros Hl Hp. rewrite pushChangeLog_eq in Hp by auto. inversion Hp; subst.
  simpl. split; [lia|]. apply log_ok_coalesce. exact Hl.
Qed.

End ChangeLogLaws.

Section FileLaws.

Lemma writeFile_ok st fid c f :
  st.(files) !! fid = Some f ->
  log_ok st.(changeLogs) st.(changeLogs_next) ->
  LocalStorage.writeFile fid c st =
  (Ok tt, mkDB (<[fid := mkFile_update f c
                          (match c with None => ""%string | Some s => md5 s end)
                          st.(now)]> st.(files))
               st.(projects) st.(settings)
               ((st.(changeLogs_next), mkChange CT_editFile c f.(file_name) f.(file_project))
                  :: coalesce (mkChange CT_editFile c f.(file_name) f.(file_project))
                              st.(changeLogs))
               (Pos.succ st.(changeLogs_next)) st.(now)).
Proof.
  intros Hf Hl. unfold LocalStorage.writeFile. apply transaction_ok.
  erewrite bind_ok by (apply readFile_found; exact Hf).
  erewrite bind_ok by (apply pushChangeLog_eq; auto).
  erewrite bind_ok by reflexivity.
  erewrite bind_ok by (apply files_update_found; exact Hf).
  reflexivity.
Qed.

End FileLaws.

(* ------------------------------------------------------------------ *)
(** ** Operations that leave the change log alone *)

Definition keeps_log {A} (m : M A) : Prop :=
  forall st, (snd (m st)).(changeLogs) = st.(changeLogs) /\
             (snd (m st)).(changeLogs_next) = st.(changeLogs_next).

Create HintDb keeps.

Section KeepsLog.

Lemma keeps_log_ret {A} (a : A) : keeps_log (mret a : M A).
Proof. intros st. split; reflexivity. Qed.

Lemma keeps_log_throw {A} e : keeps_log (throw e : M A).
Proof. intros st. split; reflexivity. Qed.

Lemma keeps_log_gets {A} (f : DB -> A) : keeps_log (gets f).
Proof. intros st. split; reflexivity. Qed.

Lemma keeps_log_bind {A B} (m : M A) (k : A -> M B) :
  keeps_log m -> (forall a, keeps_log (k a)) -> keeps_log (m ≫= k).
Proof.
  intros Hm Hk st. unfold mbind, M_bind. specialize (Hm st).
  destruct (m st) as [[a|e] s]; simpl in *; [|exact Hm].
  destruct (Hk a s) as [H1 H2]. destruct Hm as [H3 H4]. split; congruence.
Qed.

Lemma keeps_log_transaction {A} (body : M A) : keeps_log body -> keeps_log (transaction body).
Proof.
  intros Hb st. unfold transaction. specialize (Hb st).
  destruct (body st) as [[a|e] s]; simpl in *; [exact Hb | split; reflexivity].
Qed.

Lemma keeps_log_files_update fid upd : keeps_log (files_update fid upd).
Proof. intros st. unfold files_update. destruct (files st !! fid); split; reflexivity. Qed.

Lemma keeps_log_files_delete fid : keeps_log (files_delete fid).
Proof. intros st. split; reflexivity. Qed.

Lemma keeps_log_files_add f : keeps_log (files_add f).
Proof. intros st. unfold files_add. destruct (files st !! file_id f); split; reflexivity. Qed.

Lemma keeps_log_files_count name pid : keeps_log (files_count_name_project name pid).
Proof. intros st. split; reflexivity. Qed.

Lemma keeps_log_files_delete_project pid : keeps_log (files_delete_project pid).
Proof. intros st. split; reflexivity. Qed.

Lemma keeps_log_projects_update pid upd : keeps_log (projects_update pid upd).
Proof. intros st. unfold projects_update. destruct (projects st !! pid); split; reflexivity. Qed.

Lemma keeps_log_projects_add p : keeps_log (projects_add p).
Proof. intros st. unfold projects_add. destruct (projects st !! proj_id p); split; reflexivity. Qed.

Lemma keeps_log_projects_delete pid : keeps_log (projects_delete pid).
Proof. intros st. split; reflexivity. Qed.

Lemma keeps_log_readFile fid : keeps_log (LocalStorage.readFile fid).
Proof.
  apply keeps_log_transaction, keeps_log_bind; [apply keeps_log_gets|].
  intros [f|]; [apply keeps_log_ret | apply keeps_log_throw].
Qed.

Lemma keeps_log_getProject pid : keeps_log (LocalStorage.getProject pid).
Proof.
  apply keeps_log_transaction, keeps_log_bind; [apply keeps_log_gets|].
  intros [p|]; [apply keeps_log_ret | apply keeps_log_throw].
Qed.

End KeepsLog.

#[export] Hint Resolve keeps_log_ret keeps_log_throw keeps_log_gets keeps_log_bind
  keeps_log_transaction keeps_log_files_update keeps_log_files_delete keeps_log_files_add
  keeps_log_files_count keeps_log_files_delete_project keeps_log_projects_update
  keeps_log_projects_add keeps_log_projects_delete keeps_log_readFile
  keeps_log_getProject : keeps.

Section Inversion.

Lemma bind_inv_ok {A B} (m : M A) (k : A -> M B) st b st'' :
  (m ≫= k) st = (Ok b, st'') -> exists a st', m st = (Ok a, st') /\ k a st' = (Ok b, st'').
Proof.
  unfold mbind, M_bind. destruct (m st) as [[a|e] s]; intros H; [eauto | discriminate].
Qed.

Lemma transaction_inv_ok {A} (body : M A) st a st' :
  transaction body st = (Ok a, st') -> body st = (Ok a, st').
Proof.
  unfold transaction. destruct (body st) as [[a'|e] s]; intros H; [exact H | discriminate].
Qed.

Lemma keeps_log_apply {A} (m : M A) st r st' :
  keeps_log m -> m st = (r, st') ->
  st'.(changeLogs) = st.(changeLogs) /\ st'.(changeLogs_next) = st.(changeLogs_next).
Proof. intros Hm E. specialize (Hm st). rewrite E in Hm. exact Hm. Qed.

(** Whatever the log, a push puts [c] on top under the generator's key. *)
Lemma pushChangeLog_top st c k st' :
  LocalStorage.pushChangeLog c st = (Ok k, st') ->
  k = st.(changeLogs_next) /\ head st'.(changeLogs) = Some (st.(changeLogs_next), c) /\
  st'.(changeLogs_next) = Pos.succ st.(changeLogs_next).
Proof.
  unfold LocalStorage.pushChangeLog. intros H.
  apply bind_inv_ok in H as (top & s1 & E1 & H). rewrite topChangeLog_eq in E1.
  inversion E1; subst. apply transaction_inv_ok in H.
  apply bind_inv_ok in H as (u & s2 & E2 & H).
  assert (changeLogs_next s2 = changeLogs_next s1) as Hn.
  { destruct (head (changeLogs s1)) as [[k' t]|]; simpl in E2.
    - destruct (is_editFile (cl_type c) && is_editFile (cl_type t)).
      + apply bind_inv_ok in E2 as (x & s3 & E3 & E4). inversion E4; subst.
        unfold LocalStorage.popChangeLog, transaction in E3.
        destruct (head (changeLogs s1)) as [[k'' t']|] eqn:Hh;
          unfold mbind, M_bind, LocalStorage.topChangeLog, changeLogs_top, transaction,
            gets in E3; simpl in E3; rewrite Hh in E3; inversion E3; reflexivity.
      + inversion E2; reflexivity.
    - inversion E2; reflexivity. }
  unfold changeLogs_put in H. inversion H; subst. simpl. rewrite Hn. auto.
Qed.

End Inversion.

(* ------------------------------------------------------------------ *)
(** ** Whole-operation equations *)

(** A file named [name] is stored in project [pid]. *)
Definition file_named (st : DB) (name pid : string) : Prop :=
  exists k f, st.(files) !! k = Some f /\ f.(file_name) = name /\ f.(file_project) = pid.

Section OperationLaws.

Lemma count_name_project_zero st name pid :
  size (filter (fun kf : string * FileStored =>
                  kf.2.(file_name) = name /\ kf.2.(file_project) = pid) st.(files)) = 0%nat
  <-> ~ file_named st name pid.
Proof.
  rewrite map_size_empty_iff. split.
  - intros H (k & f & Hk & Hn & Hp).
    exact (map_filter_empty_not_lookup _ _ k f H (conj Hn Hp) Hk).
  - intros H. apply map_empty. intros k. apply map_lookup_filter_None_2.
    destruct (files st !! k) as [f|] eqn:Hk; [right|left; reflexivity].
    intros f' Hf' [Hn Hp]. simplify_eq. apply H. exists k, f'. auto.
Qed.

Lemma decode_contents_plain c : decode_contents false c = Some c.
Proof. unfold decode_contents. destruct (match_data_uri c) as [[[[? ?] ?] ?]|]; reflexivity. Qed.

(** Whatever the log, [pushChangeLog c] changes only the log. *)
Lemma pushChangeLog_shape st c :
  exists L, LocalStorage.pushChangeLog c st =
            (Ok st.(changeLogs_next), set_changeLogs st L (Pos.succ st.(changeLogs_next))).
Proof.
  destruct st as [fs ps se L nx nw]. unfold LocalStorage.pushChangeLog.
  erewrite bind_ok by apply topChangeLog_eq. simpl.
  destruct L as [|[k t] L']; simpl; [eexists; reflexivity|].
  destruct (is_editFile (cl_type c) && is_editFile (cl_type t)); simpl; [|eexists; reflexivity].
  eexists. reflexivity.
Qed.

Lemma writeFile_ok_any st fid c f :
  st.(files) !! fid = Some f ->
  exists L n, LocalStorage.writeFile fid c st =
  (Ok tt, mkDB (<[fid := mkFile_update f c
                          (match c with None => ""%string | Some s => md5 s end)
                          st.(now)]> st.(files))
               st.(projects) st.(settings) L n st.(now)).
Proof.
  intros Hf. unfold LocalStorage.writeFile.
  destruct (pushChangeLog_shape st (mkChange CT_editFile c f.(file_name) f.(file_project)))
    as [L HL].
  eexists _, _. apply transaction_ok.
  erewrite bind_ok by (apply readFile_found; exact Hf).
  erewrite bind_ok by exact HL.
  erewrite bind_ok by reflexivity.
  erewrite bind_ok by (apply files_update_found; exact Hf).
  reflexivity.
Qed.

Lemma deleteFile_ok st fid f p :
  st.(files) !! fid = Some f ->
  st.(projects) !! f.(file_project) = Some p ->
  LocalStorage.deleteFile fid st =
  (Ok tt, mkDB (delete fid st.(files))
               (<[f.(file_project) := mkProject p.(proj_id) p.(proj_name)
                    (filter (fun qv : string * string => qv.2 <> fid) p.(proj_runs))
                    p.(proj_last_modified)]> st.(projects))
               st.(settings)
               ((st.(changeLogs_next), mkChange CT_deleteFile None f.(file_name) f.(file_project))
                :: st.(changeLogs))
               (Pos.succ st.(changeLogs_next)) st.(now)).
Proof.
  intros Hf Hp. unfold LocalStorage.deleteFile. apply transaction_ok.
  erewrite bind_ok by (apply readFile_found; exact Hf).
  erewrite bind_ok by reflexivity.
  erewrite bind_ok by (apply pushChangeLog_plain; reflexivity).
  erewrite bind_ok by (apply getProject_found; exact Hp).
  erewrite bind_ok.
  2:{ unfold projects_update. simpl. rewrite Hp. reflexivity. }
  reflexivity.
Qed.

(** [newFile], case by case, in the order of the source. *)
Lemma newFile_eq st pid name c b :
  LocalStorage.newFile pid name c b st =
  match decode_contents b c with
  | None => (Err InvalidCharacterError, st)
  | Some c' =>
      if decide (file_named st name pid) then (Err (FileExists pid name), st)
      else match st.(projects) !! pid with
           | None => (Err (ProjectNotFound pid), st)
           | Some _ =>
               let fid := md5 (pid ++ name) in
               match st.(files) !! fid with
               | Some _ => (Err ConstraintError, st)
               | None =>
                   let f := mkFile fid pid name (Some c') (md5 c') st.(now) 0 in
                   (Ok f, mkDB (<[fid := f]> st.(files)) st.(projects) st.(settings)
                               ((st.(changeLogs_next), mkChange CT_newFile (Some c') name pid)
                                :: st.(changeLogs))
                               (Pos.succ st.(changeLogs_next)) st.(now))
               end
           end
  end.
Proof.
  unfold LocalStorage.newFile. destruct (decode_contents b c) as [c'|]; [|reflexivity].
  unfold transaction.
  erewrite bind_ok by reflexivity.
  assert (Hc := count_name_project_zero st name pid).
  destruct (size (filter _ (files st))) as [|n'] eqn:E; simpl.
  - destruct (decide (file_named st name pid)) as [Hn|Hn]; [tauto|].
    destruct (projects st !! pid) as [p|] eqn:Hp.
    + erewrite bind_ok by (apply getProject_found; exact Hp).
      erewrite bind_ok by reflexivity.
      destruct (files st !! md5 (pid ++ name)) as [g|] eqn:Hg.
      * erewrite bind_err by (unfold files_add; simpl; rewrite Hg; reflexivity).
        reflexivity.
      * erewrite bind_ok by (unfold files_add; simpl; rewrite Hg; reflexivity).
        erewrite bind_ok by (apply pushChangeLog_plain; reflexivity).
        erewrite readFile_found; [reflexivity | simpl; apply lookup_insert_eq].
    + erewrite bind_err by (apply getProject_missing; exact Hp). reflexivity.
  - destruct (decide (file_named st name pid)) as [Hn|Hn]; [reflexivity|].
    apply Hc in Hn. discriminate.
Qed.

Lemma newFile_fresh st pid name c :
  ~ file_named st name pid ->
  is_Some (st.(projects) !! pid) ->
  st.(files) !! md5 (pid ++ name) = None ->
  exists f st1, LocalStorage.newFile pid name c false st = (Ok f, st1) /\
    st1.(files) = <[md5 (pid ++ name) := f]> st.(files) /\
    st1.(projects) = st.(projects) /\ f.(file_project) = pid.
Proof.
  intros Hn [p Hp] Hg. rewrite newFile_eq, decode_contents_plain.
  rewrite decide_False by exact Hn. rewrite Hp. cbv zeta. rewrite Hg.
  eexists _, _. split; [reflexivity|]. split; [reflexivity|]. split; reflexivity.
Qed.

Lemma forM_fails {A} (l : list A) (f : A -> M unit) x :
  In x l -> (forall st, exists e, f x st = (Err e, st)) ->
  forall st, exists e st', forM_ l f st = (Err e, st').
Proof.
  intros Hin Hx. induction l as [|y l' IH]; [destruct Hin|]. intros st. simpl.
  destruct Hin as [<-|Hin].
  - destruct (Hx st) as [e He]. exists e, st. apply bind_err with (st' := st). exact He.
  - unfold mbind, M_bind. destruct (f y st) as [[u|e] s].
    + apply IH. exact Hin.
    + eauto.
Qed.

End OperationLaws.

(* ------------------------------------------------------------------ *)
(** ** The claims *)

Import Fixtures.

(** C4: two [writeFile]s of the same existing file, with no other log
    operation in between, leave a single [editFile] entry for the burst, on
    top of the log and carrying the second contents [z]: the entry of the
    first write has been popped and replaced. *)
Theorem writeFile_burst_coalesced st fid f y z :
  st.(files) !! fid = Some f ->
  log_ok st.(changeLogs) st.(changeLogs_next) ->
  exists st1 st2,
    LocalStorage.writeFile fid (Some y) st = (Ok tt, st1) /\
    LocalStorage.writeFile fid (Some z) st1 = (Ok tt, st2) /\
    st2.(changeLogs) =
      (Pos.succ st.(changeLogs_next), mkChange CT_editFile (Some z) f.(file_name) f.(file_project))
      :: coalesce (mkChange CT_editFile (Some y) f.(file_name) f.(file_project)) st.(changeLogs).
Proof.
  intros Hf Hl. eexists _, _. split; [apply writeFile_ok; eauto|]. split.
  - apply writeFile_ok.
    + simpl. rewrite lookup_insert_eq. reflexivity.
    + simpl. split; [lia|]. apply log_ok_coalesce. exact Hl.
  - simpl. reflexivity.
Qed.

Lemma writeFile_burst_coalesced_witness :
  exists f, db_a.(files) !! fid_a = Some f /\ log_ok db_a.(changeLogs) db_a.(changeLogs_next) /\
  exists st1 st2,
    LocalStorage.writeFile fid_a (Some "Y"%string) db_a = (Ok tt, st1) /\
    LocalStorage.writeFile fid_a (Some "Z"%string) st1 = (Ok tt, st2) /\
    st2.(changeLogs) =
      (Pos.succ db_a.(changeLogs_next), mkChange CT_editFile (Some "Z"%string) f.(file_name) f.(file_project))
      :: coalesce (mkChange CT_editFile (Some "Y"%string) f.(file_name) f.(file_project)) db_a.(changeLogs).
Proof.
  eexists. split; [vm_compute; reflexivity|]. split; [vm_compute; auto|].
  apply writeFile_burst_coalesced; [vm_compute; reflexivity | vm_compute; auto].
Defined.

(** C6: [renameFile] of an existing file renames the stored record in place
    (same key, only [name] changes) and puts exactly two entries on the log,
    over the untouched old log: first [newFile] with the old contents under
    the new name, then [deleteFile] of the old name. *)
Theorem renameFile_two_entries st fid f newName :
  st.(files) !! fid = Some f ->
  LocalStorage.renameFile fid newName st =
  (Ok tt, mkDB (<[fid := mkFile f.(file_id) f.(file_project) newName f.(file_contents)
                           f.(file_checksum) f.(file_last_modified) f.(file_open)]> st.(files))
               st.(projects) st.(settings)
               ((Pos.succ st.(changeLogs_next), mkChange CT_deleteFile None f.(file_name) f.(file_project))
                :: (st.(changeLogs_next), mkChange CT_newFile f.(file_contents) newName f.(file_project))
                :: st.(changeLogs))
               (Pos.succ (Pos.succ st.(changeLogs_next))) st.(now)).
Proof.
  intros Hf. unfold LocalStorage.renameFile. apply transaction_ok.
  erewrite bind_ok by (apply readFile_found; exact Hf).
  erewrite bind_ok by (apply files_update_found; exact Hf).
  erewrite bind_ok by (apply pushChangeLog_plain; reflexivity).
  erewrite bind_ok by (apply pushChangeLog_plain; reflexivity).
  reflexivity.
Qed.

Lemma renameFile_two_entries_witness :
  exists f, db_a.(files) !! fid_a = Some f /\
  LocalStorage.renameFile fid_a "q1/b.c" db_a =
  (Ok tt, mkDB (<[fid_a := mkFile f.(file_id) f.(file_project) "q1/b.c" f.(file_contents)
                           f.(file_checksum) f.(file_last_modified) f.(file_open)]> db_a.(files))
               db_a.(projects) db_a.(settings)
               ((Pos.succ db_a.(changeLogs_next), mkChange CT_deleteFile None f.(file_name) f.(file_project))
                :: (db_a.(changeLogs_next), mkChange CT_newFile f.(file_contents) "q1/b.c" f.(file_project))
                :: db_a.(changeLogs))
               (Pos.succ (Pos.succ db_a.(changeLogs_next))) db_a.(now)).
Proof.
  eexists. split; [vm_compute; reflexivity|].
  apply renameFile_two_entries. vm_compute. reflexivity.
Defined.

(** C10: on an id absent from the Files table, [addOpenTab] and
    [removeOpenTab] succeed and leave the whole store unchanged. *)
Theorem openTab_absent_noop st proj question fid :
  st.(files) !! fid = None ->
  LocalStorage.addOpenTab proj question fid st = (Ok tt, st) /\
  LocalStorage.removeOpenTab proj question fid st = (Ok tt, st).
Proof.
  intros Hf. split.
  - unfold LocalStorage.addOpenTab. apply transaction_ok.
    erewrite bind_ok by (apply files_update_missing; exact Hf). reflexivity.
  - unfold LocalStorage.removeOpenTab. apply transaction_ok.
    erewrite bind_ok by (apply files_update_missing; exact Hf). reflexivity.
Qed.

Lemma openTab_absent_noop_witness :
  db_a.(files) !! fid_b = None /\
  LocalStorage.addOpenTab pid1 "q1" fid_b db_a = (Ok tt, db_a) /\
  LocalStorage.removeOpenTab pid1 "q1" fid_b db_a = (Ok tt, db_a).
Proof.
  split; [vm_compute; reflexivity|].
  apply openTab_absent_noop. vm_compute. reflexivity.
Defined.

(** C5 (counterexample): two consecutive [editFile] pushes for different
    files ["q1/a.c"] and ["q1/b.c"] leave a single entry: the earlier one is
    removed although its target differs. *)
Lemma pushChangeLog_other_target_dropped :
  let c1 := mkChange CT_editFile (Some "x"%string) "q1/a.c" pid1 in
  let c2 := mkChange CT_editFile (Some "y"%string) "q1/b.c" pid1 in
  let st1 := snd (LocalStorage.pushChangeLog c1 db0) in
  let st2 := snd (LocalStorage.pushChangeLog c2 st1) in
  st1.(changeLogs) = [(1%positive, c1)] /\
  st2.(changeLogs) = [(2%positive, c2)].
Proof. vm_compute. split; reflexivity. Qed.

(** C5 (amended): [pushChangeLog] removes the top entry whenever it and the
    pushed entry are both [editFile], whatever their targets (file name and
    project): the new entry takes its place. *)
Theorem pushChangeLog_edit_replaces_top st c k t rest :
  st.(changeLogs) = (k, t) :: rest ->
  log_ok st.(changeLogs) st.(changeLogs_next) ->
  c.(cl_type) = CT_editFile -> t.(cl_type) = CT_editFile ->
  LocalStorage.pushChangeLog c st =
  (Ok st.(changeLogs_next),
   set_changeLogs st ((st.(changeLogs_next), c) :: rest) (Pos.succ st.(changeLogs_next))).
Proof.
  intros HL Hl Hc Ht. rewrite pushChangeLog_eq by auto. rewrite HL. simpl.
  rewrite Hc, Ht. reflexivity.
Qed.

Lemma pushChangeLog_edit_replaces_top_witness :
  let c1 := mkChange CT_editFile (Some "x"%string) "q1/a.c" pid1 in
  let c2 := mkChange CT_editFile (Some "y"%string) "q1/b.c" pid1 in
  let st1 := mkDB ∅ ∅ None [(1%positive, c1)] 2 0 in
  LocalStorage.pushChangeLog c2 st1 =
  (Ok 2%positive, set_changeLogs st1 [(2%positive, c2)] 3).
Proof.
  intros c1 c2 st1.
  apply (pushChangeLog_edit_replaces_top st1 c2 1 c1 []);
    [reflexivity | vm_compute; auto | reflexivity | reflexivity].
Defined.

(** C9 (counterexample): [newProject], [setFileToRun] and [deleteProject]
    succeed without adding any change-log entry. *)
Lemma project_ops_not_logged :
  LocalStorage.newProject "p1" db0 = (Ok (mkProject pid1 "p1" ∅ 0), db_p1) /\
  db_p1.(changeLogs) = [] /\
  fst (LocalStorage.setFileToRun pid1 "q1" "q1/a.c" db_p1) = Ok tt /\
  (snd (LocalStorage.setFileToRun pid1 "q1" "q1/a.c" db_p1)).(changeLogs) = [] /\
  fst (LocalStorage.deleteProject pid1 db_p1) = Ok tt /\
  (snd (LocalStorage.deleteProject pid1 db_p1)).(changeLogs) = [].
Proof. vm_compute. repeat split; reflexivity. Qed.

(** C9 (amended): the project operations [newProject], [deleteProject] and
    [setFileToRun] never change the change log, while every successful file
    mutation leaves on top of the log, under keys the generator has just
    assigned, the entries recording it: [writeFile] an [editFile] entry with
    the new contents, [deleteFile] a [deleteFile] entry, [newFile] a
    [newFile] entry with the decoded contents, each naming the file and its
    project; [renameFile] a [newFile] entry (new name, old contents) with a
    [deleteFile] entry (old name) above it. *)
Theorem mutations_and_change_log :
  (forall st name, (snd (LocalStorage.newProject name st)).(changeLogs) = st.(changeLogs)) /\
  (forall st pid, (snd (LocalStorage.deleteProject pid st)).(changeLogs) = st.(changeLogs)) /\
  (forall st pid q fn,
      (snd (LocalStorage.setFileToRun pid q fn st)).(changeLogs) = st.(changeLogs)) /\
  (forall st fid c st', LocalStorage.writeFile fid c st = (Ok tt, st') ->
      exists f, st.(files) !! fid = Some f /\
        head st'.(changeLogs) =
          Some (st.(changeLogs_next), mkChange CT_editFile c f.(file_name) f.(file_project))) /\
  (forall st fid st', LocalStorage.deleteFile fid st = (Ok tt, st') ->
      exists f, st.(files) !! fid = Some f /\
        head st'.(changeLogs) =
          Some (st.(changeLogs_next), mkChange CT_deleteFile None f.(file_name) f.(file_project))) /\
  (forall st pid name c b r st', LocalStorage.newFile pid name c b st = (Ok r, st') ->
      exists c', decode_contents b c = Some c' /\
        head st'.(changeLogs) =
          Some (st.(changeLogs_next), mkChange CT_newFile (Some c') name pid)) /\
  (forall st fid nn st', LocalStorage.renameFile fid nn st = (Ok tt, st') ->
      exists f, st.(files) !! fid = Some f /\
        take 2 st'.(changeLogs) =
          [(Pos.succ st.(changeLogs_next), mkChange CT_deleteFile None f.(file_name) f.(file_project));
           (st.(changeLogs_next), mkChange CT_newFile f.(file_contents) nn f.(file_project))]).
Proof.
  split; [intros st name; refine (proj1 ((_ : keeps_log (LocalStorage.newProject name)) st));
         unfold LocalStorage.newProject; eauto 10 with keeps|].
  split; [intros st pid; refine (proj1 ((_ : keeps_log (LocalStorage.deleteProject pid)) st));
         unfold LocalStorage.deleteProject; eauto 10 with keeps|].
  split; [intros st pid q fn; refine (proj1 ((_ : keeps_log (LocalStorage.setFileToRun pid q fn)) st));
         unfold LocalStorage.setFileToRun; eauto 10 with keeps|].
  split.
  { intros st fid c st' H. unfold LocalStorage.writeFile in H.
    apply transaction_inv_ok, bind_inv_ok in H as (f & s1 & E1 & H).
    apply readFile_inv_ok in E1 as [F1 ->].
    apply bind_inv_ok in H as (k & s2 & E2 & H).
    destruct (pushChangeLog_top _ _ _ _ E2) as (_ & T2 & _).
    eapply keeps_log_apply in H; [destruct H as [L3 _] | solve [eauto 10 with keeps]].
    exists f. split; [exact F1|]. rewrite L3, T2. reflexivity. }
  split.
  { intros st fid st' H. unfold LocalStorage.deleteFile in H.
    apply transaction_inv_ok, bind_inv_ok in H as (f & s1 & E1 & H).
    apply readFile_inv_ok in E1 as [F1 ->].
    apply bind_inv_ok in H as (u & s2 & E2 & H).
    apply bind_inv_ok in H as (k & s3 & E3 & H).
    destruct (keeps_log_apply _ _ _ _ (keeps_log_files_delete fid) E2) as [_ N2].
    destruct (pushChangeLog_top _ _ _ _ E3) as (_ & T3 & _).
    eapply keeps_log_apply in H; [destruct H as [L4 _] | solve [eauto 10 with keeps]].
    exists f. split; [exact F1|]. rewrite L4, T3, N2. reflexivity. }
  split.
  { intros st pid name c b r st' H. unfold LocalStorage.newFile in H.
    destruct (decode_contents b c) as [c'|]; [|discriminate].
    exists c'. split; [reflexivity|].
    apply transaction_inv_ok, bind_inv_ok in H as (n & s1 & E1 & H).
    destruct (keeps_log_apply _ _ _ _ (keeps_log_files_count name pid) E1) as [_ N1].
    destruct (0 <? n)%nat; [discriminate|].
    apply bind_inv_ok in H as (p & s2 & E2 & H).
    apply bind_inv_ok in H as (t & s3 & E3 & H).
    apply bind_inv_ok in H as (i & s4 & E4 & H).
    apply bind_inv_ok in H as (k & s5 & E5 & H).
    destruct (keeps_log_apply _ _ _ _ (keeps_log_getProject pid) E2) as [_ N2].
    destruct (keeps_log_apply _ _ _ _ (keeps_log_gets now) E3) as [_ N3].
    destruct (keeps_log_apply _ _ _ _ (keeps_log_files_add _) E4) as [_ N4].
    destruct (pushChangeLog_top _ _ _ _ E5) as (_ & T5 & _).
    destruct (keeps_log_apply _ _ _ _ (keeps_log_readFile _) H) as [L6 _].
    rewrite L6, T5, N4, N3, N2, N1. reflexivity. }
  { intros st fid nn st' H. unfold LocalStorage.renameFile in H.
    apply transaction_inv_ok, bind_inv_ok in H as (f & s1 & E1 & H).
    apply readFile_inv_ok in E1 as [F1 ->].
    apply bind_inv_ok in H as (u & s2 & E2 & H).
    apply bind_inv_ok in H as (k & s3 & E3 & H).
    apply bind_inv_ok in H as (k' & s4 & E4 & H).
    destruct (keeps_log_apply _ _ _ _ (keeps_log_files_update _ _) E2) as [L2 N2].
    rewrite pushChangeLog_plain in E3 by reflexivity. inversion E3; subst; clear E3.
    rewrite pushChangeLog_plain in E4 by reflexivity. inversion E4; subst; clear E4.
    inversion H; subst. exists f. split; [exact F1|]. simpl. rewrite N2. reflexivity. }
Qed.

Lemma mutations_and_change_log_witness :
  (snd (LocalStorage.newProject "p2" db_a)).(changeLogs) = db_a.(changeLogs) /\
  (exists f, db_a.(files) !! fid_a = Some f /\
     head (snd (LocalStorage.writeFile fid_a (Some "Y"%string) db_a)).(changeLogs)
       = Some (db_a.(changeLogs_next),
               mkChange CT_editFile (Some "Y"%string) f.(file_name) f.(file_project))) /\
  (exists f, db_a.(files) !! fid_a = Some f /\
     head (snd (LocalStorage.deleteFile fid_a db_a)).(changeLogs)
       = Some (db_a.(changeLogs_next), mkChange CT_deleteFile None f.(file_name) f.(file_project))) /\
  (exists c', decode_contents false "" = Some c' /\
     head (snd (LocalStorage.newFile pid1 "q1/b.c" "" false db_a)).(changeLogs)
       = Some (db_a.(changeLogs_next), mkChange CT_newFile (Some c') "q1/b.c" pid1)) /\
  (exists f, db_a.(files) !! fid_a = Some f /\
     take 2 (snd (LocalStorage.renameFile fid_a "q1/c.c" db_a)).(changeLogs) =
       [(Pos.succ db_a.(changeLogs_next),
         mkChange CT_deleteFile None f.(file_name) f.(file_project));
        (db_a.(changeLogs_next), mkChange CT_newFile f.(file_contents) "q1/c.c" f.(file_project))]).
Proof.
  destruct mutations_and_change_log as (Hnp & _ & _ & Hw & Hd & Hn & Hr).
  split; [apply Hnp|]. split; [|split; [|split]].
  - apply (Hw db_a fid_a (Some "Y"%string)). vm_compute. reflexivity.
  - apply (Hd db_a fid_a). vm_compute. reflexivity.
  - eapply (Hn db_a pid1 "q1/b.c"%string ""%string false). vm_compute. reflexivity.
  - apply (Hr db_a fid_a "q1/c.c"%string). vm_compute. reflexivity.
Defined.

(** C7 (counterexample): after ["q1/a.c"] is renamed to ["q1/b.c"], project
    ["p1"] has no file named ["q1/a.c"], yet [newFile] of that name fails:
    the derived key [md5(pid + name)] is still held by the renamed record
    and [files.add] raises.  A data URI marked base64 whose payload is not
    base64 also fails, inside [atob]. *)
Lemma newFile_fails_without_duplicate :
  ~ file_named db_renamed "q1/a.c" pid1 /\
  db_renamed.(projects) !! pid1 <> None /\
  fst (LocalStorage.newFile pid1 "q1/a.c" "" false db_renamed) = Err ConstraintError /\
  ~ file_named db_p1 "c.bin" pid1 /\
  db_p1.(projects) !! pid1 <> None /\
  fst (LocalStorage.newFile pid1 "c.bin" "data:;base64,a" true db_p1) = Err InvalidCharacterError.
Proof.
  split; [apply count_name_project_zero; vm_compute; reflexivity|].
  split; [vm_compute; discriminate|].
  split; [vm_compute; reflexivity|].
  split; [apply count_name_project_zero; vm_compute; reflexivity|].
  split; [vm_compute; discriminate|].
  vm_compute; reflexivity.
Qed.

(** C7 (amended): [newFile(pid, name, contents, base64)] first decodes the
    contents (only when [base64] is set and they are a data URI marked
    base64) and fails with [InvalidCharacterError] if [atob] rejects the
    payload; then it fails with AlreadyExists exactly when a file with the
    same (name, pid) exists; otherwise with NotFound when the project does
    not exist; otherwise with a store constraint error when the derived id
    [md5(pid + name)] is held by another record (a file renamed away from
    [name]); otherwise it stores the record with the decoded contents and
    their checksum, pushes a [newFile] entry and returns the record. *)
Theorem newFile_outcomes st pid name c b :
  (b = false -> decode_contents b c = Some c) /\
  (decode_contents b c = None ->
     LocalStorage.newFile pid name c b st = (Err InvalidCharacterError, st)) /\
  (forall c', decode_contents b c = Some c' ->
     (file_named st name pid ->
        LocalStorage.newFile pid name c b st = (Err (FileExists pid name), st)) /\
     (~ file_named st name pid -> st.(projects) !! pid = None ->
        LocalStorage.newFile pid name c b st = (Err (ProjectNotFound pid), st)) /\
     (~ file_named st name pid -> is_Some (st.(projects) !! pid) ->
        is_Some (st.(files) !! md5 (pid ++ name)) ->
        LocalStorage.newFile pid name c b st = (Err ConstraintError, st)) /\
     (~ file_named st name pid -> is_Some (st.(projects) !! pid) ->
        st.(files) !! md5 (pid ++ name) = None ->
        let f := mkFile (md5 (pid ++ name)) pid name (Some c') (md5 c') st.(now) 0 in
        LocalStorage.newFile pid name c b st =
        (Ok f, mkDB (<[md5 (pid ++ name) := f]> st.(files)) st.(projects) st.(settings)
                    ((st.(changeLogs_next), mkChange CT_newFile (Some c') name pid)
                     :: st.(changeLogs))
                    (Pos.succ st.(changeLogs_next)) st.(now)))).
Proof.
  split; [intros ->; apply decode_contents_plain|].
  split; [intros Hd; rewrite newFile_eq, Hd; reflexivity|].
  intros c' Hd. rewrite newFile_eq, Hd.
  split; [intros Hn; rewrite decide_True by exact Hn; reflexivity|].
  split; [intros Hn Hp; rewrite decide_False by exact Hn; rewrite Hp; reflexivity|].
  split.
  - intros Hn [p Hp] [g Hg]. rewrite decide_False by exact Hn. rewrite Hp. cbv zeta. rewrite Hg. reflexivity.
  - intros Hn [p Hp] Hg. rewrite decide_False by exact Hn. rewrite Hp. cbv zeta. rewrite Hg. reflexivity.
Qed.

Lemma newFile_outcomes_witness :
  LocalStorage.newFile pid1 "q1/a.c" "" false db_renamed = (Err ConstraintError, db_renamed) /\
  LocalStorage.newFile pid1 "q1/a.c" "" false db_a = (Err (FileExists pid1 "q1/a.c"), db_a).
Proof.
  split.
  - destruct (newFile_outcomes db_renamed pid1 "q1/a.c" "" false) as (_ & _ & H1).
    destruct (H1 ""%string (decode_contents_plain _)) as (_ & _ & H & _).
    apply H.
    + apply count_name_project_zero. vm_compute. reflexivity.
    + vm_compute. eexists. reflexivity.
    + vm_compute. eexists. reflexivity.
  - destruct (newFile_outcomes db_a pid1 "q1/a.c" "" false) as (_ & _ & H1).
    destruct (H1 ""%string (decode_contents_plain _)) as (H & _).
    apply H. exists fid_a. eexists.
    split; [vm_compute; reflexivity|]. split; vm_compute; reflexivity.
Defined.

(** C3 (code_bug): [setFileToRun] stores the file NAME under the question,
    while [deleteFile] prunes the [runs] entries equal to the file ID; after
    deleting ["q1/a.c"] the entry ["q1"] still points to the deleted file. *)
Lemma deleteFile_keeps_run_entry :
  let st1 := snd (LocalStorage.setFileToRun pid1 "q1" "q1/a.c" db_a) in
  let st2 := snd (LocalStorage.deleteFile fid_a st1) in
  fid_a <> "q1/a.c"%string /\
  (file_name <$> st1.(files) !! fid_a) = Some "q1/a.c"%string /\
  (st1.(projects) !! pid1 ≫= fun p => p.(proj_runs) !! "q1"%string) = Some "q1/a.c"%string /\
  fst (LocalStorage.deleteFile fid_a st1) = Ok tt /\
  file_named st1 "q1/a.c" pid1 /\
  ~ file_named st2 "q1/a.c" pid1 /\
  (st2.(projects) !! pid1 ≫= fun p => p.(proj_runs) !! "q1"%string) = Some "q1/a.c"%string.
Proof.
  intros st1 st2.
  split; [vm_compute; discriminate|].
  split; [vm_compute; reflexivity|].
  split; [vm_compute; reflexivity|].
  split; [vm_compute; reflexivity|].
  split; [exists fid_a; eexists; split; [vm_compute; reflexivity | split; vm_compute; reflexivity]|].
  split; [apply count_name_project_zero; vm_compute; reflexivity|].
  vm_compute. reflexivity.
Qed.

(** C8 (code_bug): a second [deleteFile] of the same id fails with NotFound,
    but the tolerated case fails too: on a stored file whose project record
    is gone, [getProject] throws before the [if (! dbProj)] warning branch,
    so the whole deletion is rolled back; and a file of a project removed by
    [deleteProject] is already gone, so [deleteFile] fails with NotFound. *)
Lemma deleteFile_orphan_raises :
  fst (LocalStorage.deleteFile fid_a (snd (LocalStorage.deleteFile fid_a db_a)))
    = Err (FileNotFound fid_a) /\
  (file_project <$> db_orphan.(files) !! fid_a) = Some pid1 /\
  db_orphan.(projects) !! pid1 = None /\
  LocalStorage.deleteFile fid_a db_orphan = (Err (ProjectNotFound pid1), db_orphan) /\
  fst (LocalStorage.deleteFile fid_a (snd (LocalStorage.deleteProject pid1 db_a)))
    = Err (FileNotFound fid_a).
Proof. vm_compute. repeat split; reflexivity. Qed.

(** The first half of C8 in general: [deleteFile] of an absent id fails with
    NotFound and changes nothing. *)
Theorem deleteFile_absent_not_found st fid :
  st.(files) !! fid = None ->
  LocalStorage.deleteFile fid st = (Err (FileNotFound fid), st).
Proof.
  intros Hf. unfold LocalStorage.deleteFile. apply transaction_err with (st' := st).
  apply bind_err. apply readFile_missing. exact Hf.
Qed.

Lemma deleteFile_absent_not_found_witness :
  LocalStorage.deleteFile fid_b db_a = (Err (FileNotFound fid_b), db_a).
Proof. apply deleteFile_absent_not_found. vm_compute. reflexivity. Defined.

(** C2: [applyChanges] is all or nothing.  When it fails the store, its
    change log included, is exactly as before; any failure of a step of the
    batch body makes the whole call fail that way; and an entry whose [type]
    is none of [newFile], [deleteFile], [editFile] makes the batch fail
    whatever else it contains. *)
Theorem applyChanges_atomic :
  (forall cls nps dps st e st',
     LocalStorage.applyChanges cls nps dps st = (Err e, st') -> st' = st) /\
  (forall cls nps dps st e s,
     LocalStorage.applyChanges_body cls nps dps st = (Err e, s) ->
     LocalStorage.applyChanges cls nps dps st = (Err e, st)) /\
  (forall cls nps dps st c t,
     In c cls -> c.(cl_type) = CT_other t ->
     exists e, LocalStorage.applyChanges cls nps dps st = (Err e, st)).
Proof.
  split; [intros cls nps dps st e st'; apply transaction_rollback|].
  split; [intros cls nps dps st e s; apply transaction_err|].
  intros cls nps dps st c t Hin Ht.
  unfold LocalStorage.applyChanges.
  destruct (LocalStorage.applyChanges_body cls nps dps st) as [[u|e] s] eqn:E.
  - exfalso. unfold LocalStorage.applyChanges_body in E.
    apply bind_inv_ok in E as (u1 & s1 & _ & E).
    apply bind_inv_ok in E as (u2 & s2 & E & _).
    assert (Hf : forall st0, exists e0, LocalStorage.applyChange c st0 = (Err e0, st0)).
    { intros st0. unfold LocalStorage.applyChange. rewrite Ht. eexists. reflexivity. }
    destruct (forM_fails cls LocalStorage.applyChange c Hin Hf s1) as (e0 & s0 & E0).
    congruence.
  - exists e. apply transaction_err with (st' := s). exact E.
Qed.

Lemma applyChanges_atomic_witness :
  let cls := [mkChange CT_newFile (Some "x"%string) "q1/n.c" "p2";
              mkChange (CT_other "renameFile") None "q1/a.c" "p1"] in
  exists e, LocalStorage.applyChanges cls ["p2"%string] [] db_a = (Err e, db_a).
Proof.
  intros cls. destruct applyChanges_atomic as (_ & _ & H).
  apply (H cls ["p2"%string] [] db_a (mkChange (CT_other "renameFile") None "q1/a.c" "p1")
           "renameFile"%string); [simpl; auto | reflexivity].
Defined.

(** C1: on an empty project [p = md5(n)] (it exists and no file belongs to
    it; with a collision-free hash the id [md5(p + f1)] derived for [f1] is
    then free as well, which is stated as a hypothesis), replaying
    [newFile f1], [editFile f1 -> "v2"], [deleteFile f1] with [applyChanges]
    succeeds, leaves no file [f1] in [p] (the Files table ends as it began)
    and leaves the change log empty. *)
Theorem applyChanges_replay_new_edit_delete st n f1 c0 pr :
  st.(projects) !! md5 n = Some pr ->
  (forall k f, st.(files) !! k = Some f -> f.(file_project) <> md5 n) ->
  st.(files) !! md5 (md5 n ++ f1) = None ->
  exists st',
    LocalStorage.applyChanges
      [mkChange CT_newFile c0 f1 n;
       mkChange CT_editFile (Some "v2"%string) f1 n;
       mkChange CT_deleteFile None f1 n] [] [] st = (Ok tt, st') /\
    ~ file_named st' f1 (md5 n) /\
    st'.(files) = st.(files) /\
    st'.(changeLogs) = [].
Proof.
  intros Hp Hempty Hfree.
  assert (Hnot : ~ file_named st f1 (md5 n)).
  { intros (k & f & Hk & _ & Hpr). exact (Hempty k f Hk Hpr). }
  (* the newFile entry *)
  assert (A1 : exists st1 f, LocalStorage.applyChange (mkChange CT_newFile c0 f1 n) st = (Ok tt, st1)
                 /\ st1.(files) = <[md5 (md5 n ++ f1) := f]> st.(files)
                 /\ st1.(projects) = st.(projects) /\ f.(file_project) = md5 n).
  { destruct (newFile_fresh st (md5 n) f1 (default ""%string c0) Hnot ltac:(eexists; exact Hp) Hfree)
      as (f & st1 & E1 & F1 & P1 & Pf).
    exists st1, f. split; [|auto].
    unfold LocalStorage.applyChange.
    cbv beta iota zeta delta [cl_type cl_project cl_file cl_contents].
    rewrite (bind_ok _ _ _ _ _ E1). reflexivity. }
  destruct A1 as (st1 & f & A1 & F1 & P1 & Pf).
  (* the editFile entry *)
  assert (A2 : exists st2 f', LocalStorage.applyChange (mkChange CT_editFile (Some "v2"%string) f1 n) st1
                 = (Ok tt, st2)
                 /\ st2.(files) = <[md5 (md5 n ++ f1) := f']> st1.(files)
                 /\ st2.(projects) = st1.(projects) /\ f'.(file_project) = md5 n).
  { assert (Hf1 : st1.(files) !! md5 (md5 n ++ f1) = Some f) by (rewrite F1; apply lookup_insert_eq).
    destruct (writeFile_ok_any st1 _ (Some "v2"%string) f Hf1) as (L2 & n2 & E2).
    eexists _, _. split; [|split; [|split]].
    - unfold LocalStorage.applyChange.
      cbv beta iota zeta delta [cl_type cl_project cl_file cl_contents]. exact E2.
    - reflexivity.
    - reflexivity.
    - exact Pf. }
  destruct A2 as (st2 & f' & A2 & F2 & P2 & Pf').
  (* the deleteFile entry *)
  assert (A3 : exists st3, LocalStorage.applyChange (mkChange CT_deleteFile None f1 n) st2 = (Ok tt, st3)
                 /\ st3.(files) = delete (md5 (md5 n ++ f1)) st2.(files)).
  { assert (Hf2 : st2.(files) !! md5 (md5 n ++ f1) = Some f') by (rewrite F2; apply lookup_insert_eq).
    assert (Hp2 : st2.(projects) !! f'.(file_project) = Some pr) by (rewrite P2, P1, Pf'; exact Hp).
    eexists. split.
    - unfold LocalStorage.applyChange.
      cbv beta iota zeta delta [cl_type cl_project cl_file cl_contents].
      exact (deleteFile_ok st2 _ f' pr Hf2 Hp2).
    - reflexivity. }
  destruct A3 as (st3 & A3 & F3).
  exists (set_changeLogs st3 [] st3.(changeLogs_next)). split; [|split; [|split]].
  - assert (Hloop : forM_ [mkChange CT_newFile c0 f1 n;
                           mkChange CT_editFile (Some "v2"%string) f1 n;
                           mkChange CT_deleteFile None f1 n] LocalStorage.applyChange st
                     = (Ok tt, st3)).
    { simpl forM_. rewrite (bind_ok _ _ _ _ _ A1), (bind_ok _ _ _ _ _ A2), (bind_ok _ _ _ _ _ A3).
      reflexivity. }
    unfold LocalStorage.applyChanges, LocalStorage.applyChanges_body. apply transaction_ok.
    erewrite bind_ok by reflexivity.
    rewrite (bind_ok _ _ _ _ _ Hloop). reflexivity.
  - intros (k & g & Hk & Hn & Hpr). simpl in Hk.
    rewrite F3, F2, F1, delete_insert_eq, delete_insert_eq, delete_id in Hk by exact Hfree.
    exact (Hempty k g Hk Hpr).
  - simpl. rewrite F3, F2, F1, delete_insert_eq, delete_insert_eq, delete_id by exact Hfree.
    reflexivity.
  - reflexivity.
Qed.

Lemma applyChanges_replay_new_edit_delete_witness :
  exists st',
    LocalStorage.applyChanges
      [mkChange CT_newFile None "f1" "p1";
       mkChange CT_editFile (Some "v2"%string) "f1" "p1";
       mkChange CT_deleteFile None "f1" "p1"] [] [] db_p1 = (Ok tt, st') /\
    ~ file_named st' "f1" (md5 "p1") /\
    st'.(files) = db_p1.(files) /\
    st'.(changeLogs) = [].
Proof.
  apply (applyChanges_replay_new_edit_delete db_p1 "p1" "f1" None
           (mkProject pid1 "p1" ∅ 0)).
  - vm_compute. reflexivity.
  - intros k f Hk.
    assert (E : db_p1.(files) = ∅) by (vm_compute; reflexivity).
    rewrite E, lookup_empty in Hk. discriminate Hk.
  - vm_compute. reflexivity.
Defined.

(* ------------------------------------------------------------------ *)
(** ** Further properties of [LocalStorage] *)

(** [m] keeps the [++id] table well formed. *)
Definition keeps_ok {A} (m : M A) : Prop :=
  forall st, log_ok st.(changeLogs) st.(changeLogs_next) ->
             log_ok (snd (m st)).(changeLogs) (snd (m st)).(changeLogs_next).

Create HintDb logok.

Section KeepsOk.

Lemma log_ok_filter l b (p : positive * ChangeLog -> bool) :
  log_ok l b -> log_ok (List.filter p l) b.
Proof.
  revert b. induction l as [|[k t] l' IH]; intros b; simpl; [auto|].
  intros [Hk Hl]. destruct (p (k, t)); simpl.
  - split; [exact Hk | apply IH; exact Hl].
  - eapply log_ok_weaken; [apply IH; exact Hl | lia].
Qed.

Lemma keeps_ok_of_keeps_log {A} (m : M A) : keeps_log m -> keeps_ok m.
Proof. intros Hm st Hl. destruct (Hm st) as [-> ->]. exact Hl. Qed.

Lemma keeps_ok_bind {A B} (m : M A) (k : A -> M B) :
  keeps_ok m -> (forall a, keeps_ok (k a)) -> keeps_ok (m ≫= k).
Proof.
  intros Hm Hk st Hl. unfold mbind, M_bind. specialize (Hm st Hl).
  destruct (m st) as [[a|e] s]; simpl in *; [apply Hk; exact Hm | exact Hm].
Qed.

Lemma keeps_ok_transaction {A} (body : M A) : keeps_ok body -> keeps_ok (transaction body).
Proof.
  intros Hb st Hl. unfold transaction. specialize (Hb st Hl).
  destruct (body st) as [[a|e] s]; simpl in *; [exact Hb | exact Hl].
Qed.

Lemma keeps_ok_changeLogs_put c : keeps_ok (changeLogs_put c).
Proof. intros st Hl. simpl. split; [lia | exact Hl]. Qed.

Lemma keeps_ok_changeLogs_delete k : keeps_ok (changeLogs_delete k).
Proof. intros st Hl. simpl. apply log_ok_filter. exact Hl. Qed.

Lemma keeps_ok_changeLogs_clear : keeps_ok changeLogs_clear.
Proof. intros st Hl. simpl. exact I. Qed.

Lemma keeps_ok_forM_ {A} (l : list A) (f : A -> M unit) :
  (forall x, keeps_ok (f x)) -> keeps_ok (forM_ l f).
Proof.
  intros Hf. induction l as [|x l' IH]; simpl.
  - apply keeps_ok_of_keeps_log, keeps_log_ret.
  - apply keeps_ok_bind; [apply Hf | intros _; exact IH].
Qed.

End KeepsOk.

#[export] Hint Resolve keeps_ok_changeLogs_put keeps_ok_changeLogs_delete
  keeps_ok_changeLogs_clear : logok.

Ltac keeps_ok_tac :=
  repeat match goal with
  | |- keeps_ok (let _ := _ in _) => cbv zeta
  | |- keeps_ok (forM_ _ _) => apply keeps_ok_forM_; intros ?
  | |- keeps_ok (transaction _) => apply keeps_ok_transaction
  | |- keeps_ok (mbind _ _) => apply keeps_ok_bind; [|intros ?]
  | |- keeps_ok (match ?x with _ => _ end) => destruct x
  | |- keeps_ok _ =>
      first [ solve [eauto with logok]
            | solve [apply keeps_ok_of_keeps_log; eauto 10 with keeps] ]
  end.

Section LogInvariant.

Lemma keeps_ok_popChangeLog : keeps_ok LocalStorage.popChangeLog.
Proof. unfold LocalStorage.popChangeLog, LocalStorage.topChangeLog, changeLogs_top. keeps_ok_tac. Qed.

Lemma keeps_ok_pushChangeLog c : keeps_ok (LocalStorage.pushChangeLog c).
Proof.
  unfold LocalStorage.pushChangeLog, LocalStorage.topChangeLog, changeLogs_top. keeps_ok_tac.
  all: try apply keeps_ok_popChangeLog.
  all: keeps_ok_tac.
Qed.

End LogInvariant.

Section MoreKeepsLog.

Lemma keeps_log_projects_put p : keeps_log (projects_put p).
Proof. intros st. split; reflexivity. Qed.

Lemma keeps_log_settings_put x : keeps_log (settings_put x).
Proof. intros st. split; reflexivity. Qed.

Lemma keeps_log_files_toArray : keeps_log files_toArray.
Proof. apply keeps_log_gets. Qed.

Lemma keeps_log_files_where_project pid : keeps_log (files_where_project pid).
Proof. apply keeps_log_gets. Qed.

Lemma keeps_log_files_where_project_open pid o : keeps_log (files_where_project_open pid o).
Proof. apply keeps_log_gets. Qed.

Lemma keeps_log_projects_toCollection : keeps_log projects_toCollection.
Proof. apply keeps_log_gets. Qed.

Lemma keeps_log_settings_get : keeps_log settings_get.
Proof. apply keeps_log_gets. Qed.

Lemma keeps_log_changeLogs_toArray_desc : keeps_log changeLogs_toArray_desc.
Proof. apply keeps_log_gets. Qed.

Lemma keeps_log_changeLogs_count : keeps_log changeLogs_count.
Proof. apply keeps_log_gets. Qed.

Lemma keeps_log_changeLogs_top : keeps_log changeLogs_top.
Proof. apply keeps_log_gets. Qed.

End MoreKeepsLog.

#[export] Hint Resolve keeps_log_projects_put keeps_log_settings_put keeps_log_files_toArray
  keeps_log_files_where_project keeps_log_files_where_project_open
  keeps_log_projects_toCollection keeps_log_settings_get keeps_log_changeLogs_toArray_desc
  keeps_log_changeLogs_count keeps_log_changeLogs_top : keeps.

#[export] Hint Resolve keeps_ok_popChangeLog keeps_ok_pushChangeLog : logok.

Section FileOpsKeepOk.

Lemma keeps_ok_writeFile fid c : keeps_ok (LocalStorage.writeFile fid c).
Proof. unfold LocalStorage.writeFile. keeps_ok_tac. Qed.

Lemma keeps_ok_deleteFile fid : keeps_ok (LocalStorage.deleteFile fid).
Proof. unfold LocalStorage.deleteFile. keeps_ok_tac. Qed.

Lemma keeps_ok_newFile pid name contents b : keeps_ok (LocalStorage.newFile pid name contents b).
Proof. unfold LocalStorage.newFile. keeps_ok_tac. Qed.

Lemma keeps_ok_newProject name : keeps_ok (LocalStorage.newProject name).
Proof. unfold LocalStorage.newProject. keeps_ok_tac. Qed.

Lemma keeps_ok_deleteProject pid : keeps_ok (LocalStorage.deleteProject pid).
Proof. unfold LocalStorage.deleteProject. keeps_ok_tac. Qed.

End FileOpsKeepOk.

#[export] Hint Resolve keeps_ok_writeFile keeps_ok_deleteFile keeps_ok_newFile
  keeps_ok_newProject keeps_ok_deleteProject : logok.

Section ChangeLogOps.

Lemma log_ok_below l b : log_ok l b -> Forall (fun kt : positive * ChangeLog => (kt.1 < b)%positive) l.
Proof.
  revert b. induction l as [|[k t] l' IH]; intros b; simpl; [constructor|].
  intros [Hk Hl]. constructor; [exact Hk|].
  eapply Forall_impl; [apply IH; exact Hl|]. intros [k' t'] H. simpl in *. lia.
Qed.

Lemma popChangeLog_eq st :
  log_ok st.(changeLogs) st.(changeLogs_next) ->
  LocalStorage.popChangeLog st =
  (Ok (head st.(changeLogs)), set_changeLogs st (tail st.(changeLogs)) st.(changeLogs_next)).
Proof.
  destruct st as [fs ps se L nx nw]. simpl.
  destruct L as [|[k t] L']; intros Hl.
  - reflexivity.
  - destruct Hl as [Hk Hl].
    unfold LocalStorage.popChangeLog, LocalStorage.topChangeLog, transaction, changeLogs_top,
      gets, mbind, M_bind, changeLogs_delete, mret, M_ret; simpl.
    rewrite Pos.eqb_refl. simpl. rewrite (filter_below L' k k Hl) by lia. reflexivity.
Qed.

End ChangeLogOps.

(** [popChangeLog] returns the newest entry and deletes it, leaving the key
    generator alone; on an empty log it returns [false] (here [None]) and
    changes nothing. *)
Theorem popChangeLog_removes_newest st :
  log_ok st.(changeLogs) st.(changeLogs_next) ->
  LocalStorage.popChangeLog st =
  (Ok (head st.(changeLogs)), set_changeLogs st (tail st.(changeLogs)) st.(changeLogs_next)) /\
  (st.(changeLogs) = [] -> LocalStorage.popChangeLog st = (Ok None, st)).
Proof.
  intros Hl. split; [apply popChangeLog_eq; exact Hl|].
  intros HL. rewrite popChangeLog_eq by exact Hl. rewrite HL.
  destruct st; simpl in *; subst; reflexivity.
Qed.

Lemma popChangeLog_removes_newest_witness :
  LocalStorage.popChangeLog db_a =
  (Ok (head db_a.(changeLogs)), set_changeLogs db_a (tail db_a.(changeLogs)) db_a.(changeLogs_next)) /\
  (db_a.(changeLogs) = [] -> LocalStorage.popChangeLog db_a = (Ok None, db_a)).
Proof. apply popChangeLog_removes_newest. vm_compute. auto. Defined.

(** [popChangeLog] right after [pushChangeLog c] returns [c] under the key
    the push was given, and leaves the log as the push found it, except
    that when [c] and the entry below were both [editFile] that entry is
    gone too (it was coalesced away); the key generator stays advanced. *)
Theorem pushChangeLog_then_popChangeLog st c :
  log_ok st.(changeLogs) st.(changeLogs_next) ->
  LocalStorage.popChangeLog (snd (LocalStorage.pushChangeLog c st)) =
  (Ok (Some (st.(changeLogs_next), c)),
   set_changeLogs st (coalesce c st.(changeLogs)) (Pos.succ st.(changeLogs_next))).
Proof.
  intros Hl. rewrite pushChangeLog_eq by auto. simpl.
  rewrite popChangeLog_eq.
  - reflexivity.
  - simpl. split; [lia|]. apply log_ok_coalesce. exact Hl.
Qed.

Lemma pushChangeLog_then_popChangeLog_witness :
  LocalStorage.popChangeLog
    (snd (LocalStorage.pushChangeLog (mkChange CT_deleteFile None "q1/a.c" "p1") db_a)) =
  (Ok (Some (db_a.(changeLogs_next), mkChange CT_deleteFile None "q1/a.c" "p1")),
   set_changeLogs db_a (coalesce (mkChange CT_deleteFile None "q1/a.c" "p1") db_a.(changeLogs))
                  (Pos.succ db_a.(changeLogs_next))).
Proof. apply pushChangeLog_then_popChangeLog. vm_compute. auto. Defined.

(** [countChangeLogs] grows by one with each [pushChangeLog c], except when
    [c] and the newest entry are both [editFile], where it stays the same. *)
Theorem pushChangeLog_count st c :
  log_ok st.(changeLogs) st.(changeLogs_next) ->
  fst (LocalStorage.countChangeLogs (snd (LocalStorage.pushChangeLog c st))) =
  Ok (match head st.(changeLogs) with
      | Some (_, t) =>
          if is_editFile c.(cl_type) && is_editFile t.(cl_type)
          then length st.(changeLogs) else S (length st.(changeLogs))
      | None => 1%nat
      end).
Proof.
  intros Hl. rewrite pushChangeLog_eq by auto. simpl.
  unfold coalesce. destruct (changeLogs st) as [|[k t] L']; simpl; [reflexivity|].
  destruct (is_editFile (cl_type c) && is_editFile (cl_type t)); reflexivity.
Qed.

Lemma pushChangeLog_count_witness :
  fst (LocalStorage.countChangeLogs
         (snd (LocalStorage.pushChangeLog (mkChange CT_editFile (Some "y"%string) "q1/a.c" "p1")
                 (snd (LocalStorage.writeFile fid_a (Some "x"%string) db_a))))) = Ok 2%nat.
Proof.
  rewrite (pushChangeLog_count (snd (LocalStorage.writeFile fid_a (Some "x"%string) db_a))).
  - vm_compute. reflexivity.
  - vm_compute. auto.
Defined.

(** [writeFile(fid, c)] on a stored file, read back with [readFile]: the
    record keeps its id, project, name and open flag, and carries the new
    contents, their checksum ([md5(c)], or the empty string when [c] is
    undefined) and the time of the write; no other file, project or the
    settings change. *)
Theorem writeFile_then_readFile st fid f c :
  st.(files) !! fid = Some f ->
  exists st',
    LocalStorage.writeFile fid c st = (Ok tt, st') /\
    LocalStorage.readFile fid st' =
      (Ok (mkFile f.(file_id) f.(file_project) f.(file_name) c
                  (match c with None => ""%string | Some s => md5 s end)
                  st.(now) f.(file_open)), st') /\
    (forall k, k <> fid -> st'.(files) !! k = st.(files) !! k) /\
    st'.(projects) = st.(projects) /\ st'.(settings) = st.(settings).
Proof.
  intros Hf. destruct (writeFile_ok_any st fid c f Hf) as (L & n & E).
  eexists. split; [exact E|]. split; [|split; [|split]].
  - apply readFile_found. simpl. rewrite lookup_insert_eq. reflexivity.
  - intros k Hk. simpl. rewrite lookup_insert_ne by congruence. reflexivity.
  - reflexivity.
  - reflexivity.
Qed.

Lemma writeFile_then_readFile_witness :
  exists st',
    LocalStorage.writeFile fid_a None db_a = (Ok tt, st') /\
    LocalStorage.readFile fid_a st' =
      (Ok (mkFile fid_a pid1 "q1/a.c" None ""%string db_a.(now) 0), st') /\
    (forall k, k <> fid_a -> st'.(files) !! k = db_a.(files) !! k) /\
    st'.(projects) = db_a.(projects) /\ st'.(settings) = db_a.(settings).
Proof.
  destruct (writeFile_then_readFile db_a fid_a
              (mkFile fid_a pid1 "q1/a.c" (Some "int main(){}"%string)
                      (md5 "int main(){}") 0 0) None)
    as (st' & E1 & E2 & E3).
  - vm_compute. reflexivity.
  - exists st'. split; [exact E1|]. split; [exact E2 | exact E3].
Defined.

(** On an id absent from the Files table, [readFile], [writeFile],
    [renameFile] and [deleteFile] all fail with NotFound and change
    nothing: in particular no change-log entry is pushed. *)
Theorem file_ops_missing_id st fid c newName :
  st.(files) !! fid = None ->
  LocalStorage.readFile fid st = (Err (FileNotFound fid), st) /\
  LocalStorage.writeFile fid c st = (Err (FileNotFound fid), st) /\
  LocalStorage.renameFile fid newName st = (Err (FileNotFound fid), st) /\
  LocalStorage.deleteFile fid st = (Err (FileNotFound fid), st).
Proof.
  intros Hf. split; [apply readFile_missing; exact Hf|].
  split; [|split].
  - unfold LocalStorage.writeFile. apply transaction_err with (st' := st).
    apply bind_err. apply readFile_missing. exact Hf.
  - unfold LocalStorage.renameFile. apply transaction_err with (st' := st).
    apply bind_err. apply readFile_missing. exact Hf.
  - unfold LocalStorage.deleteFile. apply transaction_err with (st' := st).
    apply bind_err. apply readFile_missing. exact Hf.
Qed.

Lemma file_ops_missing_id_witness :
  LocalStorage.readFile fid_b db_a = (Err (FileNotFound fid_b), db_a) /\
  LocalStorage.writeFile fid_b (Some "x"%string) db_a = (Err (FileNotFound fid_b), db_a) /\
  LocalStorage.renameFile fid_b "q1/c.c" db_a = (Err (FileNotFound fid_b), db_a) /\
  LocalStorage.deleteFile fid_b db_a = (Err (FileNotFound fid_b), db_a).
Proof. apply file_ops_missing_id. vm_compute. reflexivity. Defined.

(** [deleteFile] of a stored file whose project exists removes the file
    and, in that project, exactly the [runs] entries whose value is the
    file's id, keeping the project's other fields; other projects are not
    touched. *)
Theorem deleteFile_prunes_runs_by_id st fid f p :
  st.(files) !! fid = Some f ->
  st.(projects) !! f.(file_project) = Some p ->
  exists st',
    LocalStorage.deleteFile fid st = (Ok tt, st') /\
    st'.(files) = delete fid st.(files) /\
    (exists p', st'.(projects) !! f.(file_project) = Some p' /\
       p'.(proj_id) = p.(proj_id) /\ p'.(proj_name) = p.(proj_name) /\
       p'.(proj_last_modified) = p.(proj_last_modified) /\
       forall q, p'.(proj_runs) !! q =
                 match p.(proj_runs) !! q with
                 | Some v => if String.eqb v fid then None else Some v
                 | None => None
                 end) /\
    (forall pid, pid <> f.(file_project) -> st'.(projects) !! pid = st.(projects) !! pid).
Proof.
  intros Hf Hp. rewrite (deleteFile_ok st fid f p Hf Hp).
  eexists. split; [reflexivity|]. split; [reflexivity|]. split.
  - eexists. split; [simpl; apply lookup_insert_eq|]. simpl.
    split; [reflexivity|]. split; [reflexivity|]. split; [reflexivity|].
    intros q. rewrite map_lookup_filter.
    destruct (proj_runs p !! q) as [v|]; simpl; [|reflexivity].
    destruct (String.eqb v fid) eqn:E.
    + apply String.eqb_eq in E. subst. case_guard; simpl in *; [tauto | reflexivity].
    + apply String.eqb_neq in E. case_guard; simpl in *; [reflexivity | tauto].
  - intros pid Hpid. simpl. rewrite lookup_insert_ne by congruence. reflexivity.
Qed.

Lemma deleteFile_prunes_runs_by_id_witness :
  let st := snd (LocalStorage.setFileToRun pid1 "q1" fid_a db_a) in
  exists st',
    LocalStorage.deleteFile fid_a st = (Ok tt, st') /\
    st'.(files) = delete fid_a st.(files) /\
    (exists p', st'.(projects) !! pid1 = Some p' /\
       p'.(proj_id) = pid1 /\ p'.(proj_name) = "p1"%string /\
       p'.(proj_last_modified) = 0 /\
       forall q, p'.(proj_runs) !! q =
                 match (<["q1"%string := fid_a]> (∅ : gmap string string)) !! q with
                 | Some v => if String.eqb v fid_a then None else Some v
                 | None => None
                 end) /\
    (forall pid, pid <> pid1 -> st'.(projects) !! pid = st.(projects) !! pid).
Proof.
  intros st.
  destruct (deleteFile_prunes_runs_by_id st fid_a
              (mkFile fid_a pid1 "q1/a.c" (Some "int main(){}"%string) (md5 "int main(){}") 0 0)
              (mkProject pid1 "p1" (<["q1"%string := fid_a]> ∅) 0))
    as (st' & E1 & E2 & E3 & E4).
  - vm_compute. reflexivity.
  - vm_compute. reflexivity.
  - exists st'. split; [exact E1|]. split; [exact E2|]. split; [exact E3 | exact E4].
Defined.

(** [newProject(name)] fails with the store's constraint error, changing
    nothing, when a project with id [md5(name)] exists (so creating the
    same project twice fails); otherwise it stores the project with empty
    [runs] and the current time, returns it, and [getProject(md5(name))]
    then finds it. *)
Theorem newProject_outcomes st name :
  (is_Some (st.(projects) !! md5 name) ->
     LocalStorage.newProject name st = (Err ConstraintError, st)) /\
  (st.(projects) !! md5 name = None ->
     let p := mkProject (md5 name) name ∅ st.(now) in
     let st' := set_projects st (<[md5 name := p]> st.(projects)) in
     LocalStorage.newProject name st = (Ok p, st') /\
     LocalStorage.getProject (md5 name) st' = (Ok p, st')).
Proof.
  split.
  - intros [p Hp]. unfold LocalStorage.newProject. apply transaction_err with (st' := st).
    erewrite bind_ok by reflexivity. apply bind_err. unfold projects_add. simpl.
    rewrite Hp. reflexivity.
  - intros Hp p st'.
    assert (G : LocalStorage.getProject (md5 name) st' = (Ok p, st')).
    { apply getProject_found. simpl. apply lookup_insert_eq. }
    split; [|exact G].
    unfold LocalStorage.newProject. apply transaction_ok.
    erewrite bind_ok by reflexivity.
    erewrite bind_ok by (unfold projects_add; simpl; rewrite Hp; reflexivity).
    exact G.
Qed.

Lemma newProject_outcomes_witness :
  LocalStorage.newProject "p1" db_p1 = (Err ConstraintError, db_p1) /\
  LocalStorage.newProject "p2" db_p1 =
    (Ok (mkProject (md5 "p2") "p2" ∅ db_p1.(now)),
     set_projects db_p1 (<[md5 "p2" := mkProject (md5 "p2") "p2" ∅ db_p1.(now)]> db_p1.(projects))).
Proof.
  split.
  - apply (newProject_outcomes db_p1 "p1"). vm_compute. eexists. reflexivity.
  - apply (newProject_outcomes db_p1 "p2"). vm_compute. reflexivity.
Defined.

(** [deleteProject(pid)] never fails: afterwards [getProject(pid)] fails
    with NotFound, exactly the files of other projects remain, the other
    projects, the settings and the change log are untouched. *)
Theorem deleteProject_removes st pid :
  exists st',
    LocalStorage.deleteProject pid st = (Ok tt, st') /\
    LocalStorage.getProject pid st' = (Err (ProjectNotFound pid), st') /\
    (forall k f, st'.(files) !! k = Some f <->
                 st.(files) !! k = Some f /\ f.(file_project) <> pid) /\
    (forall pid', pid' <> pid -> st'.(projects) !! pid' = st.(projects) !! pid') /\
    st'.(settings) = st.(settings) /\ st'.(changeLogs) = st.(changeLogs).
Proof.
  eexists. split; [reflexivity|]. split; [|split; [|split]].
  - apply getProject_missing. simpl. apply lookup_delete_eq.
  - intros k f. simpl. rewrite map_lookup_filter_Some. simpl. tauto.
  - intros pid' Hne. simpl. apply lookup_delete_ne. congruence.
  - split; reflexivity.
Qed.

(** [setFileToRun(pid, q, fn)] on an existing project records [fn] for
    [q] whatever [fn] is (it is not checked against the files, which do not
    change); [getFileToRun(pid, q)] then returns [fn], or [false] when [fn]
    is the empty string, also for a question that names an inherited
    member.  The entries of the other questions are kept; for
    ["__proto__"], whose assignment is ignored, nothing [getFileToRun]
    returns changes. *)
Theorem setFileToRun_then_getFileToRun st pid p q fn :
  st.(projects) !! pid = Some p ->
  exists st',
    LocalStorage.setFileToRun pid q fn st = (Ok tt, st') /\
    (q <> "__proto__" ->
       LocalStorage.getFileToRun pid q st' =
         (Ok (if String.eqb fn "" then None else Some (LocalStorage.RunName fn)), st')) /\
    (forall q', q' <> q \/ q = "__proto__" ->
       fst (LocalStorage.getFileToRun pid q' st') = fst (LocalStorage.getFileToRun pid q' st)) /\
    st'.(files) = st.(files).
Proof.
  intros Hp.
  set (runs' := if String.eqb q "__proto__" then p.(proj_runs) else <[q := fn]> p.(proj_runs)).
  set (p' := mkProject p.(proj_id) p.(proj_name) runs' p.(proj_last_modified)).
  assert (Hp' : (set_projects st (<[pid := p']> st.(projects))).(projects) !! pid = Some p')
    by (simpl; apply lookup_insert_eq).
  exists (set_projects st (<[pid := p']> st.(projects))). split; [|split; [|split]].
  - unfold LocalStorage.setFileToRun. apply transaction_ok.
    erewrite bind_ok by (apply getProject_found; exact Hp).
    erewrite bind_ok by (unfold projects_update; rewrite Hp; reflexivity).
    reflexivity.
  - intros Hq. unfold LocalStorage.getFileToRun. apply transaction_ok.
    erewrite bind_ok by (apply getProject_found; exact Hp').
    simpl. unfold runs'. apply String.eqb_neq in Hq. rewrite Hq, lookup_insert_eq. reflexivity.
  - intros q' Hq'. unfold LocalStorage.getFileToRun. unfold transaction at 1 2.
    erewrite bind_ok by (apply getProject_found; exact Hp').
    erewrite bind_ok by (apply getProject_found; exact Hp).
    simpl. unfold runs'. destruct (String.eqb_spec q "__proto__") as [Hq|Hq].
    + reflexivity.
    + destruct Hq' as [Hq'|Hq']; [|congruence].
      rewrite lookup_insert_ne by congruence. reflexivity.
  - reflexivity.
Qed.

Lemma setFileToRun_then_getFileToRun_witness :
  (exists st',
    LocalStorage.setFileToRun pid1 "q1" "" db_a = (Ok tt, st') /\
    ("q1"%string <> "__proto__" -> LocalStorage.getFileToRun pid1 "q1" st' = (Ok None, st')) /\
    (forall q', q' <> "q1"%string \/ "q1"%string = "__proto__" ->
       fst (LocalStorage.getFileToRun pid1 q' st') = fst (LocalStorage.getFileToRun pid1 q' db_a)) /\
    st'.(files) = db_a.(files)) /\
  (exists st',
    LocalStorage.setFileToRun pid1 "__proto__" "q1/a.c" db_a = (Ok tt, st') /\
    ("__proto__"%string <> "__proto__" ->
       LocalStorage.getFileToRun pid1 "__proto__" st' =
         (Ok (Some (LocalStorage.RunName "q1/a.c")), st')) /\
    (forall q', q' <> "__proto__"%string \/ "__proto__"%string = "__proto__" ->
       fst (LocalStorage.getFileToRun pid1 q' st') = fst (LocalStorage.getFileToRun pid1 q' db_a)) /\
    st'.(files) = db_a.(files)).
Proof.
  split.
  - apply (setFileToRun_then_getFileToRun db_a pid1 (mkProject pid1 "p1" ∅ 0) "q1" "").
    vm_compute. reflexivity.
  - apply (setFileToRun_then_getFileToRun db_a pid1 (mkProject pid1 "p1" ∅ 0) "__proto__" "q1/a.c").
    vm_compute. reflexivity.
Defined.

(** On a project id absent from the Projects table, [getProject],
    [getFileToRun], [setFileToRun] and [getProjectFiles] fail with
    NotFound and change nothing. *)
Theorem project_ops_missing_project st pid q fn :
  st.(projects) !! pid = None ->
  LocalStorage.getProject pid st = (Err (ProjectNotFound pid), st) /\
  LocalStorage.getFileToRun pid q st = (Err (ProjectNotFound pid), st) /\
  LocalStorage.setFileToRun pid q fn st = (Err (ProjectNotFound pid), st) /\
  LocalStorage.getProjectFiles pid st = (Err (ProjectNotFound pid), st).
Proof.
  intros Hp. split; [apply getProject_missing; exact Hp|].
  split; [|split].
  - unfold LocalStorage.getFileToRun. apply transaction_err with (st' := st).
    apply bind_err. apply getProject_missing. exact Hp.
  - unfold LocalStorage.setFileToRun. apply transaction_err with (st' := st).
    apply bind_err. apply getProject_missing. exact Hp.
  - unfold LocalStorage.getProjectFiles. apply transaction_err with (st' := st).
    apply bind_err. apply getProject_missing. exact Hp.
Qed.

Lemma project_ops_missing_project_witness :
  LocalStorage.getProject (md5 "p2") db_a = (Err (ProjectNotFound (md5 "p2")), db_a) /\
  LocalStorage.getFileToRun (md5 "p2") "q1" db_a = (Err (ProjectNotFound (md5 "p2")), db_a) /\
  LocalStorage.setFileToRun (md5 "p2") "q1" "q1/a.c" db_a = (Err (ProjectNotFound (md5 "p2")), db_a) /\
  LocalStorage.getProjectFiles (md5 "p2") db_a = (Err (ProjectNotFound (md5 "p2")), db_a).
Proof. apply project_ops_missing_project. vm_compute. reflexivity. Defined.

(** [setSettings(s)] writes the single settings row (key 0), whatever was
    there, and changes nothing else; [getSettings] then returns [s]. *)
Theorem setSettings_then_getSettings st s :
  let st' := mkDB st.(files) st.(projects) (Some s) st.(changeLogs)
                  st.(changeLogs_next) st.(now) in
  LocalStorage.setSettings s st = (Ok tt, st') /\
  LocalStorage.getSettings st' = (Ok (Some s), st').
Proof. destruct s. split; reflexivity. Qed.

Section Listings.

Lemma sorted_by_key {V} (m : gmap string V) :
  Sorted key_le (merge_sort key_le_fst (map_to_list m)).*1.
Proof.
  apply (Sorted_fmap fst key_le_fst key_le); [intros x y H; exact H|].
  apply Sorted_merge_sort. intros x y. unfold key_le_fst, key_le.
  destruct (String.leb_total x.1 y.1); [left | right]; assumption.
Qed.

Lemma nodup_by_key {V} (m : gmap string V) : NoDup (merge_sort key_le_fst (map_to_list m)).*1.
Proof. rewrite merge_sort_Permutation. apply NoDup_fst_map_to_list. Qed.

Lemma elem_of_sorted_map {V} (m : gmap string V) k v :
  (k, v) ∈ merge_sort key_le_fst (map_to_list m) <-> m !! k = Some v.
Proof. rewrite merge_sort_Permutation. apply elem_of_map_to_list. Qed.

Lemma elem_of_by_key {V} (m : gmap string V) v : v ∈ by_key m <-> exists k, m !! k = Some v.
Proof.
  unfold by_key. rewrite list_elem_of_fmap. split.
  - intros ([k v'] & -> & H). exists k. apply elem_of_sorted_map. exact H.
  - intros (k & H). exists (k, v). split; [reflexivity|]. apply elem_of_sorted_map. exact H.
Qed.

Lemma length_by_key {V} (m : gmap string V) : length (by_key m) = size m.
Proof. unfold by_key. rewrite length_fmap, merge_sort_Permutation. apply length_map_to_list. Qed.

End Listings.

(** [getProjectFiles(pid)] on a stored project (whose record carries its
    own key as [id]) refreshes the project's [last_modified] to the current
    time, changing nothing else, and returns exactly the files of that
    project, one entry per stored file. *)
Theorem getProjectFiles_lists_project st pid p :
  st.(projects) !! pid = Some p -> p.(proj_id) = pid ->
  exists l,
    LocalStorage.getProjectFiles pid st =
      (Ok l, set_projects st (<[pid := mkProject pid p.(proj_name) p.(proj_runs) st.(now)]>
                                 st.(projects))) /\
    (forall f, f ∈ l <-> exists k, st.(files) !! k = Some f /\ f.(file_project) = pid) /\
    length l = size (filter (fun kf : string * FileStored => kf.2.(file_project) = pid)
                            st.(files)).
Proof.
  intros Hp Hid. eexists. split.
  - unfold LocalStorage.getProjectFiles. apply transaction_ok.
    erewrite bind_ok by (apply getProject_found; exact Hp).
    erewrite bind_ok by reflexivity.
    erewrite bind_ok by reflexivity.
    rewrite Hid. reflexivity.
  - split.
    + intros f. rewrite elem_of_by_key. simpl. split.
      * intros (k & Hk). apply map_lookup_filter_Some in Hk as [Hk Hf]. eauto.
      * intros (k & Hk & Hf). exists k. apply map_lookup_filter_Some. auto.
    + apply length_by_key.
Qed.

Lemma getProjectFiles_lists_project_witness :
  exists l,
    LocalStorage.getProjectFiles pid1 db_ab =
      (Ok l, set_projects db_ab (<[pid1 := mkProject pid1 "p1" ∅ db_ab.(now)]> db_ab.(projects))) /\
    (forall f, f ∈ l <-> exists k, db_ab.(files) !! k = Some f /\ f.(file_project) = pid1) /\
    length l = size (filter (fun kf : string * FileStored => kf.2.(file_project) = pid1)
                            db_ab.(files)).
Proof.
  apply (getProjectFiles_lists_project db_ab pid1 (mkProject pid1 "p1" ∅ 0));
    vm_compute; reflexivity.
Defined.

(** [getOpenTabs(proj, question)] ignores [question]: it returns the files
    of [proj] whose open flag is 1, whatever the question, and changes
    nothing. *)
Theorem getOpenTabs_open_files st proj q :
  exists l,
    LocalStorage.getOpenTabs proj q st = (Ok l, st) /\
    (forall q', LocalStorage.getOpenTabs proj q' st = (Ok l, st)) /\
    (forall f, f ∈ l <->
       exists k, st.(files) !! k = Some f /\ f.(file_project) = proj /\ f.(file_open) = 1).
Proof.
  eexists. split; [reflexivity|]. split; [intros q'; reflexivity|].
  intros f. unfold LocalStorage.getOpenTabs, files_where_project_open, gets. simpl.
  rewrite elem_of_by_key. split.
  - intros (k & Hk). apply map_lookup_filter_Some in Hk as [Hk [H1 H2]]. eauto.
  - intros (k & Hk & H1 & H2). exists k. apply map_lookup_filter_Some. auto.
Qed.

(** [addOpenTab] sets the open flag of the file to 1 and [removeOpenTab]
    sets it back to 0, touching no other field; both ignore the project
    (and question) they are given: the file shows up in, then disappears
    from, the open tabs of its own project. *)
Theorem openTab_toggles st proj proj' q q' fid f :
  st.(files) !! fid = Some f ->
  let g o := mkFile f.(file_id) f.(file_project) f.(file_name) f.(file_contents)
                    f.(file_checksum) f.(file_last_modified) o in
  let st1 := snd (LocalStorage.addOpenTab proj q fid st) in
  let st2 := snd (LocalStorage.removeOpenTab proj' q' fid st1) in
  st1.(files) = <[fid := g 1]> st.(files) /\
  st2.(files) = <[fid := g 0]> st.(files) /\
  (exists l, LocalStorage.getOpenTabs f.(file_project) q st1 = (Ok l, st1) /\ g 1 ∈ l) /\
  (forall proj'' l, LocalStorage.getOpenTabs proj'' q st2 = (Ok l, st2) -> g 0 ∉ l).
Proof.
  intros Hf g st1 st2.
  assert (E1 : st1.(files) = <[fid := g 1]> st.(files)).
  { unfold st1, LocalStorage.addOpenTab, transaction, mbind, M_bind.
    rewrite (files_update_found _ _ _ _ Hf). reflexivity. }
  assert (E2 : st2.(files) = <[fid := g 0]> st.(files)).
  { unfold st2, LocalStorage.removeOpenTab, transaction, mbind, M_bind.
    assert (Hf1 : st1.(files) !! fid = Some (g 1)) by (rewrite E1; apply lookup_insert_eq).
    rewrite (files_update_found _ _ _ _ Hf1). simpl. rewrite E1, insert_insert_eq. reflexivity. }
  split; [exact E1|]. split; [exact E2|]. split.
  - destruct (getOpenTabs_open_files st1 f.(file_project) q) as (l & El & _ & Hl).
    exists l. split; [exact El|]. apply Hl. exists fid. rewrite E1, lookup_insert_eq. auto.
  - intros proj'' l El Hin.
    destruct (getOpenTabs_open_files st2 proj'' q) as (l' & El' & _ & Hl).
    rewrite El in El'. injection El' as <-. apply Hl in Hin as (k & _ & _ & H). discriminate.
Qed.

Lemma openTab_toggles_witness :
  let g o := mkFile fid_a pid1 "q1/a.c" (Some "int main(){}"%string) (md5 "int main(){}") 0 o in
  let st1 := snd (LocalStorage.addOpenTab "x" "q1" fid_a db_a) in
  let st2 := snd (LocalStorage.removeOpenTab "y" "q2" fid_a st1) in
  st1.(files) = <[fid_a := g 1]> db_a.(files) /\
  st2.(files) = <[fid_a := g 0]> db_a.(files) /\
  (exists l, LocalStorage.getOpenTabs pid1 "q1" st1 = (Ok l, st1) /\ g 1 ∈ l) /\
  (forall proj'' l, LocalStorage.getOpenTabs proj'' "q1" st2 = (Ok l, st2) -> g 0 ∉ l).
Proof.
  apply (openTab_toggles db_a "x" "y" "q1" "q2" fid_a
           (mkFile fid_a pid1 "q1/a.c" (Some "int main(){}"%string) (md5 "int main(){}") 0 0)).
  vm_compute. reflexivity.
Defined.

(** A lowercase hexadecimal digit: 0-9 or a-f. *)
Definition is_lower_hex (c : ascii) : bool :=
  let n := nat_of_ascii c in
  ((48 <=? n) && (n <=? 57))%nat || ((97 <=? n) && (n <=? 102))%nat.

Section MD5Shape.

Lemma hex_digit_lower n : 0 <= n <= 15 -> is_lower_hex (MD5.hex_digit n) = true.
Proof.
  intros H. unfold MD5.hex_digit, is_lower_hex.
  destruct (Z.ltb_spec n 10); rewrite nat_ascii_embedding by lia; apply orb_true_intro.
  - left. apply andb_true_intro. split; apply Nat.leb_le; lia.
  - right. apply andb_true_intro. split; apply Nat.leb_le; lia.
Qed.

Lemma hex_length bs : String.length (MD5.hex bs) = (2 * length bs)%nat.
Proof. induction bs as [|b bs IH]; simpl; [reflexivity|]. rewrite IH. lia. Qed.

Lemma hex_lower bs :
  Forall (fun b => 0 <= b <= 255) bs ->
  Forall (fun c => is_lower_hex c = true) (list_ascii_of_string (MD5.hex bs)).
Proof.
  induction bs as [|b bs IH]; intros Hb; simpl; [constructor|].
  inversion Hb as [|? ? Hb1 Hbs]; subst.
  constructor; [|constructor; [|apply IH; exact Hbs]]; apply hex_digit_lower.
  - rewrite Z.shiftr_div_pow2 by lia. change (2 ^ 4) with 16.
    assert (b / 16 < 16) by (apply Z.div_lt_upper_bound; lia).
    split; [apply Z.div_pos; lia | lia].
  - replace (Z.land b 15) with (b mod 16).
    + pose proof (Z.mod_pos_bound b 16). lia.
    + symmetry. apply (Z.land_ones b 4). lia.
Qed.

Lemma le_bytes_range n x : Forall (fun b => 0 <= b <= 255) (MD5.le_bytes n x).
Proof.
  unfold MD5.le_bytes. apply List.Forall_forall. intros b Hb.
  apply in_map_iff in Hb as (i & <- & _).
  replace (Z.land (Z.shiftr x (8 * Z.of_nat i)) 255) with (Z.shiftr x (8 * Z.of_nat i) mod 256).
  - pose proof (Z.mod_pos_bound (Z.shiftr x (8 * Z.of_nat i)) 256). lia.
  - symmetry. apply (Z.land_ones _ 8). lia.
Qed.

Lemma le_bytes_length n x : length (MD5.le_bytes n x) = n.
Proof. unfold MD5.le_bytes. rewrite length_map, length_seq. reflexivity. Qed.

Lemma append_same_length a b x y :
  String.length a = String.length b -> (a ++ x = b ++ y)%string -> a = b /\ x = y.
Proof.
  revert b. induction a as [|c a IH]; intros b Hl He; destruct b as [|c' b];
    simpl in *; try discriminate; [auto|].
  injection He as -> He. injection Hl as Hl. destruct (IH b Hl He) as [-> ->]. auto.
Qed.

End MD5Shape.

(** Every id the store derives with [md5] (project ids [md5(name)], file
    ids [md5(pid + name)]) is 32 lowercase hexadecimal digits; hence the
    input [pid + name] of a file id, with [pid] a derived project id,
    determines both [pid] and [name]. *)
Theorem md5_lower_hex_ids s :
  String.length (md5 s) = 32%nat /\
  Forall (fun c => is_lower_hex c = true) (list_ascii_of_string (md5 s)) /\
  (forall s' n n', (md5 s ++ n = md5 s' ++ n')%string -> md5 s = md5 s' /\ n = n').
Proof.
  assert (Hshape : forall s, String.length (md5 s) = 32%nat /\
            Forall (fun c => is_lower_hex c = true) (list_ascii_of_string (md5 s))).
  { intros t. rewrite md5_eq. unfold MD5.digest.
    destruct (fold_left _ _ _) as [[[a b] c] d].
    split.
    - rewrite hex_length, !length_app, !le_bytes_length. reflexivity.
    - apply hex_lower. rewrite !Forall_app. repeat split; apply le_bytes_range. }
  split; [apply Hshape|]. split; [apply Hshape|].
  intros s' n n' He. apply append_same_length; [|exact He].
  rewrite (proj1 (Hshape s)), (proj1 (Hshape s')). reflexivity.
Qed.

Section ApplyChangesLaws.

(** [forM_ dps deleteProject], in closed form. *)
Lemma forM_deleteProject st dps :
  exists st', forM_ dps LocalStorage.deleteProject st = (Ok tt, st') /\
    (forall k f, st'.(files) !! k = Some f <->
                 st.(files) !! k = Some f /\ f.(file_project) ∉ dps) /\
    (forall pid p, st'.(projects) !! pid = Some p <->
                   st.(projects) !! pid = Some p /\ pid ∉ dps) /\
    st'.(settings) = st.(settings) /\ st'.(changeLogs) = st.(changeLogs) /\
    st'.(changeLogs_next) = st.(changeLogs_next).
Proof.
  revert st. induction dps as [|d ds IH]; intros st.
  - exists st. split; [reflexivity|]. split; [|split].
    + intros k f. rewrite elem_of_nil. tauto.
    + intros pid p. rewrite elem_of_nil. tauto.
    + auto.
  - simpl. set (st1 := snd (LocalStorage.deleteProject d st)).
    assert (E1 : LocalStorage.deleteProject d st = (Ok tt, st1)) by reflexivity.
    destruct (IH st1) as (st' & E & Hf & Hp & Hs & Hl & Hn).
    exists st'. rewrite (bind_ok _ _ _ _ _ E1). split; [exact E|]. split; [|split].
    + intros k f. rewrite Hf, elem_of_cons. unfold st1. simpl.
      rewrite map_lookup_filter_Some. simpl. split.
      * intros [[A B] C]. split; [exact A|]. intros [D|D]; [exact (B D) | exact (C D)].
      * intros [A B]. split; [split; [exact A|] |]; intros D; apply B; [left | right]; exact D.
    + intros pid p. rewrite Hp, elem_of_cons. unfold st1. simpl.
      rewrite lookup_delete_Some. split.
      * intros [[A B] C]. split; [exact B|]. intros [D|D]; [exact (A (eq_sym D)) | exact (C D)].
      * intros [A B]. split; [split; [intros D; apply B; left; exact (eq_sym D) | exact A]|].
        intros D. apply B. right. exact D.
    + unfold st1 in *. simpl in *. auto.
Qed.

Lemma newProject_keeps_projects name st p st' pid :
  LocalStorage.newProject name st = (Ok p, st') ->
  is_Some (st.(projects) !! pid) -> is_Some (st'.(projects) !! pid).
Proof.
  unfold LocalStorage.newProject. intros H. apply transaction_inv_ok in H.
  apply bind_inv_ok in H as (t & s1 & E1 & H). inversion E1; subst.
  apply bind_inv_ok in H as (k & s2 & E2 & H).
  unfold projects_add in E2. simpl in E2.
  destruct (projects s1 !! md5 name) eqn:Hm; [discriminate|].
  inversion E2; subst. unfold LocalStorage.getProject, transaction, mbind, M_bind,
    projects_get, gets in H. simpl in H. rewrite lookup_insert_eq in H. inversion H; subst.
  simpl. intros Hs. destruct (decide (pid = md5 name)) as [->|Hne].
  - rewrite lookup_insert_eq. eexists. reflexivity.
  - rewrite lookup_insert_ne by congruence. exact Hs.
Qed.

Lemma forM_newProject_fails st nps name :
  In name nps -> is_Some (st.(projects) !! md5 name) ->
  exists e st', forM_ nps (fun proj => _ ← LocalStorage.newProject proj; mret tt) st = (Err e, st').
Proof.
  revert st. induction nps as [|y ys IH]; intros st Hin Hs; [destruct Hin|]. simpl.
  destruct Hin as [->|Hin].
  - exists ConstraintError, st. apply bind_err, bind_err.
    apply (proj1 (newProject_outcomes st name)). exact Hs.
  - destruct (LocalStorage.newProject y st) as [[p|e] s1] eqn:E.
    + unfold mbind at 1, M_bind at 1. unfold mbind at 1, M_bind at 1. rewrite E.
      apply IH; [exact Hin|]. eapply newProject_keeps_projects; eauto.
    + exists e, s1. unfold mbind at 1, M_bind at 1. unfold mbind at 1, M_bind at 1.
      rewrite E. reflexivity.
Qed.

End ApplyChangesLaws.

(** [applyChanges] with no remote change and no new project deletes every
    listed project together with its files, clears the change log (keeping
    its key generator) and changes nothing else. *)
Theorem applyChanges_only_deletions st dps :
  exists st',
    LocalStorage.applyChanges [] [] dps st = (Ok tt, st') /\
    st'.(changeLogs) = [] /\ st'.(changeLogs_next) = st.(changeLogs_next) /\
    (forall k f, st'.(files) !! k = Some f <->
                 st.(files) !! k = Some f /\ f.(file_project) ∉ dps) /\
    (forall pid p, st'.(projects) !! pid = Some p <->
                   st.(projects) !! pid = Some p /\ pid ∉ dps) /\
    st'.(settings) = st.(settings).
Proof.
  destruct (forM_deleteProject st dps) as (st1 & E & Hf & Hp & Hs & Hl & Hn).
  exists (set_changeLogs st1 [] st1.(changeLogs_next)). split.
  - unfold LocalStorage.applyChanges, LocalStorage.applyChanges_body. apply transaction_ok.
    erewrite bind_ok by reflexivity. erewrite bind_ok by reflexivity.
    rewrite (bind_ok _ _ _ _ _ E). reflexivity.
  - simpl. split; [reflexivity|]. split; [exact Hn|]. split; [exact Hf|]. split; [exact Hp | exact Hs].
Qed.

(** [applyChanges] fails, leaving the store as it was, when one of the new
    project names already names a stored project: the creation of that
    project fails and aborts the whole batch. *)
Theorem applyChanges_existing_project st cls nps dps name :
  In name nps -> is_Some (st.(projects) !! md5 name) ->
  exists e, LocalStorage.applyChanges cls nps dps st = (Err e, st).
Proof.
  intros Hin Hs. destruct (forM_newProject_fails st nps name Hin Hs) as (e & s & E).
  exists e. unfold LocalStorage.applyChanges, LocalStorage.applyChanges_body.
  apply transaction_err with (st' := s). apply bind_err. exact E.
Qed.

Lemma applyChanges_existing_project_witness :
  exists e, LocalStorage.applyChanges [] ["p2"%string; "p1"%string] [] db_a = (Err e, db_a).
Proof.
  apply (applyChanges_existing_project db_a [] ["p2"%string; "p1"%string] [] "p1");
    [simpl; auto | vm_compute; eexists; reflexivity].
Defined.

(* ------------------------------------------------------------------ *)
(** ** Properties of [mergeBetter], [groupBy] and [settingsReducer] *)

Section Props.
Import JS.
Context {V : Type}.
Implicit Types (ps : list (string * V)) (k : string) (v : V).

Lemma get_None_not_in k ps : get k ps = None <-> k ∉ ps.*1.
Proof.
  induction ps as [|[k' v'] ps IH]; simpl.
  - split; [intros _; apply not_elem_of_nil | done].
  - destruct (String.eqb_spec k k') as [->|Hne].
    + split; [done|]. intros H. exfalso. apply H. left.
    + rewrite IH, elem_of_cons. intuition.
Qed.

Lemma get_replace k k' v ps :
  get k (replace k' v ps) =
  if String.eqb k k' then (match get k ps with Some _ => Some v | None => None end)
  else get k ps.
Proof.
  induction ps as [|[k1 v1] ps IH]; simpl.
  - by destruct (String.eqb k k').
  - destruct (String.eqb_spec k' k1) as [->|Hne]; simpl.
    + by destruct (String.eqb_spec k k1).
    + rewrite IH. destruct (String.eqb_spec k k1); destruct (String.eqb_spec k k');
        subst; congruence.
Qed.

Lemma keys_replace k v ps : (replace k v ps).*1 = ps.*1.
Proof.
  induction ps as [|[k1 v1] ps IH]; simpl; [done|].
  destruct (String.eqb k k1); csimpl; by rewrite ?IH.
Qed.

Lemma get_insert_index n k k' v ps :
  get k' ps = None ->
  get k (insert_index n k' v ps) = if String.eqb k k' then Some v else get k ps.
Proof.
  induction ps as [|[k1 v1] ps IH]; simpl; intros H.
  - destruct (String.eqb k k'); done.
  - destruct (String.eqb_spec k' k1) as [|Hne]; [done|].
    destruct (array_index k1) as [n1|]; [destruct (n <? n1)%N|]; simpl;
      try (rewrite IH by done);
      destruct (String.eqb_spec k k1); destruct (String.eqb_spec k k'); subst; congruence.
Qed.

Lemma keys_insert_index n k v ps : (insert_index n k v ps).*1 ≡ₚ k :: ps.*1.
Proof.
  induction ps as [|[k1 v1] ps IH]; simpl; [done|].
  destruct (array_index k1) as [n1|]; [destruct (n <? n1)%N|]; simpl; try done.
  rewrite IH. apply perm_swap.
Qed.

Lemma get_app_new k k' v ps :
  get k' ps = None ->
  get k (ps ++ [(k', v)]) = if String.eqb k k' then Some v else get k ps.
Proof.
  induction ps as [|[k1 v1] ps IH]; simpl; intros H.
  - by destruct (String.eqb k k').
  - destruct (String.eqb_spec k' k1) as [|Hne]; [done|].
    rewrite IH by done.
    destruct (String.eqb_spec k k1); destruct (String.eqb_spec k k'); subst; congruence.
Qed.

Lemma get_set k k' v ps :
  get k (set ps k' v) = if String.eqb k k' then Some v else get k ps.
Proof.
  unfold set. destruct (get k' ps) eqn:E.
  - rewrite get_replace. destruct (String.eqb_spec k k') as [->|]; [by rewrite E|done].
  - destruct (array_index k'); [by apply get_insert_index | by apply get_app_new].
Qed.

Lemma nodup_set k v ps : NoDup ps.*1 -> NoDup (set ps k v).*1.
Proof.
  intros H. unfold set. destruct (get k ps) eqn:E.
  - by rewrite keys_replace.
  - apply get_None_not_in in E. destruct (array_index k).
    + rewrite keys_insert_index. by constructor.
    + rewrite fmap_app. simpl. apply NoDup_app. split; [done|]. split.
      * intros x Hx Hx'. apply list_elem_of_singleton in Hx'. subst. done.
      * apply NoDup_singleton.
Qed.

Lemma get_cons_nodup k k' v ps :
  NoDup (k' :: ps.*1) -> get k ((k', v) :: ps) = if String.eqb k k' then Some v else get k ps.
Proof. done. Qed.

(** Setting each property of [l] in turn. *)
Lemma get_fold_set (h : string -> V -> V) l acc k :
  NoDup l.*1 ->
  get k (fold_left (fun acc (kv : string * V) => set acc kv.1 (h kv.1 kv.2)) l acc) =
  match get k l with Some va => Some (h k va) | None => get k acc end.
Proof.
  revert acc. induction l as [|[k1 v1] l IH]; intros acc Hnd; simpl; [done|].
  apply NoDup_cons in Hnd as [Hk1 Hnd].
  rewrite IH by done. rewrite get_set.
  destruct (String.eqb_spec k k1) as [->|]; [|done].
  rewrite (proj2 (get_None_not_in k1 l) Hk1). done.
Qed.

(** Adding the properties of [r] that are still missing. *)
Lemma get_fold_add r acc k :
  NoDup r.*1 ->
  get k (fold_left (fun acc (kv : string * V) =>
                      match get kv.1 acc with Some _ => acc | None => set acc kv.1 kv.2 end)
                   r acc) =
  match get k acc with Some v => Some v | None => get k r end.
Proof.
  revert acc. induction r as [|[k1 v1] r IH]; intros acc Hnd; simpl.
  - by destruct (get k acc).
  - apply NoDup_cons in Hnd as [Hk1 Hnd].
    rewrite IH by done. simpl.
    destruct (get k1 acc) eqn:E1.
    + destruct (get k acc) eqn:E; [done|].
      destruct (String.eqb_spec k k1) as [->|]; congruence.
    + rewrite get_set. destruct (String.eqb_spec k k1) as [->|].
      * by rewrite E1.
      * done.
Qed.

Lemma nodup_fold_set (h : string -> V -> V) l acc :
  NoDup acc.*1 ->
  NoDup (fold_left (fun acc (kv : string * V) => set acc kv.1 (h kv.1 kv.2)) l acc).*1.
Proof.
  revert acc. induction l as [|[k1 v1] l IH]; intros acc Hnd; simpl; [done|].
  apply IH. by apply nodup_set.
Qed.

Lemma nodup_fold_add r acc :
  NoDup acc.*1 ->
  NoDup (fold_left (fun acc (kv : string * V) =>
                      match get kv.1 acc with Some _ => acc | None => set acc kv.1 kv.2 end)
                   r acc).*1.
Proof.
  revert acc. induction r as [|[k1 v1] r IH]; intros acc Hnd; simpl; [done|].
  apply IH. destruct (get k1 acc); [done|]. by apply nodup_set.
Qed.

End Props.

Section MergeBetter.
Import JS.

Lemma get_merge_fns k (pb : list (string * value)) :
  get k (map (fun '(k, vb) => (k, fun va => mergeBetter va vb)) pb) =
  match get k pb with Some vb => Some (fun va => mergeBetter va vb) | None => None end.
Proof.
  induction pb as [|[k1 v1] pb IH]; simpl; [done|].
  by destruct (String.eqb k k1).
Qed.

Lemma mergeBetter_obj cls1 cls2 pa ha pb hb :
  mergeBetter (Obj cls1 pa ha) (Obj cls2 pb hb) =
  Obj "Object" (merge_props (map (fun '(k, vb) => (k, fun va => mergeBetter va vb)) (pb ++ hb))
                  pa pb) [].
Proof. by rewrite map_app. Qed.

Lemma mergeBetter_not_obj a b :
  (forall cls1 pa ha cls2 pb hb, a = Obj cls1 pa ha -> b = Obj cls2 pb hb -> False) ->
  mergeBetter a b = b.
Proof.
  intros H. destruct a as [| | | | | |c1 pa ha], b as [| | | | | |c2 pb hb]; try done.
  exfalso. by eapply H.
Qed.

Lemma merge_props_spec pa pb hb :
  NoDup pa.*1 -> NoDup pb.*1 ->
  NoDup (merge_props (map (fun '(k, vb) => (k, fun va => mergeBetter va vb)) (pb ++ hb))
           pa pb).*1 /\
  forall k,
    get k (merge_props (map (fun '(k, vb) => (k, fun va => mergeBetter va vb)) (pb ++ hb))
             pa pb) =
    match get k pa, get k (pb ++ hb) with
    | Some va, Some vb => Some (mergeBetter va vb)
    | Some va, None => Some va
    | None, _ => get k pb
    end.
Proof.
  intros Ha Hb. unfold merge_props. split.
  - apply nodup_fold_add, (nodup_fold_set (fun k va =>
      match get k (map (fun '(k, vb) => (k, fun va => mergeBetter va vb)) (pb ++ hb)) with
      | Some f => f va | None => va end)).
    constructor.
  - intros k.
    rewrite get_fold_add by done.
    rewrite (get_fold_set (fun k va =>
      match get k (map (fun '(k, vb) => (k, fun va => mergeBetter va vb)) (pb ++ hb)) with
      | Some f => f va | None => va end)) by done.
    rewrite get_merge_fns. simpl.
    destruct (get k pa), (get k (pb ++ hb)); done.
Qed.

End MergeBetter.

Section GroupBy.
Import JS.
Context {A : Type} (grp : A -> string).

Lemma get_map_keys {V} (g : string -> V) ks k :
  get k (map (fun k' => (k', g k')) ks) = if decide (k ∈ ks) then Some (g k) else None.
Proof.
  induction ks as [|k1 ks IH]; cbn [map get].
  - rewrite decide_False; [done|]. apply not_elem_of_nil.
  - rewrite IH. destruct (String.eqb_spec k k1) as [->|Hne].
    + rewrite decide_True; [done|]. left.
    + destruct (decide (k ∈ ks)); [rewrite decide_True | rewrite decide_False]; try done.
      * by right.
      * rewrite elem_of_cons. intuition.
Qed.

Lemma replace_map_keys {V} (g : string -> V) ks k v :
  NoDup ks ->
  replace k v (map (fun k' => (k', g k')) ks) =
  map (fun k' => (k', if String.eqb k k' then v else g k')) ks.
Proof.
  induction ks as [|k1 ks IH]; intros Hnd; simpl; [done|].
  apply NoDup_cons in Hnd as [Hk1 Hnd].
  destruct (String.eqb_spec k k1) as [->|Hne]; simpl.
  - f_equal. apply map_ext_in. intros k' Hk'%list_elem_of_In.
    destruct (String.eqb_spec k1 k'); [subst; done | done].
  - by rewrite IH.
Qed.

Lemma index_le_is_Some a b : index_le a b -> is_Some (array_index a) /\ is_Some (array_index b).
Proof. unfold index_le. destruct (array_index a), (array_index b); done. Qed.

Lemma insert_index_map {V} (g : string -> V) I Nk k n :
  Forall (fun k => is_Some (array_index k)) I -> StronglySorted index_le I ->
  Forall (fun k => array_index k = None) Nk -> array_index k = Some n ->
  exists I', insert_index n k (g k) (map (fun k' => (k', g k')) (I ++ Nk)) =
             map (fun k' => (k', g k')) (I' ++ Nk) /\
             I' ≡ₚ k :: I /\ StronglySorted index_le I' /\
             Forall (fun k => is_Some (array_index k)) I'.
Proof.
  intros HI Hs HN Hk. induction I as [|i I IH]; simpl.
  - exists [k].
    assert (Hrest : StronglySorted index_le [k] /\ Forall (fun k => is_Some (array_index k)) [k]).
    { split; [repeat constructor|]. repeat constructor. by rewrite Hk. }
    destruct Nk as [|k1 Nk]; simpl.
    + done.
    + inversion HN as [|? ? Hk1 _]; subst. by rewrite Hk1.
  - inversion HI as [|? ? [m Hi] HI']; subst. inversion Hs as [|? ? Hs' Hall]; subst.
    rewrite Hi. destruct (N.ltb_spec n m).
    + exists (k :: i :: I). repeat split; try done.
      * constructor; [done|]. constructor.
        -- unfold index_le. rewrite Hk, Hi. lia.
        -- eapply Forall_impl; [exact Hall|]. intros j Hj.
           destruct (index_le_is_Some _ _ Hj) as [_ [mj Hj']].
           unfold index_le in *. rewrite Hk. rewrite Hi, Hj' in Hj. rewrite Hj'. lia.
      * constructor; [by rewrite Hk|]. by constructor.
    + destruct (IH HI' Hs') as (I' & Heq & Hp & Hs'' & HI'').
      exists (i :: I'). simpl. rewrite Heq. repeat split.
      * rewrite Hp. apply perm_swap.
      * constructor; [done|]. rewrite Hp. constructor; [|done].
        unfold index_le. rewrite Hi, Hk. lia.
      * by constructor.
Qed.

Section Dedup.
Let step := fun (acc : list string) k => if decide (k ∈ acc) then acc else acc ++ [k].

Lemma elem_of_dedup_fold l acc k : k ∈ fold_left step l acc <-> k ∈ acc \/ k ∈ l.
Proof.
  revert acc. induction l as [|k1 l IH]; intros acc; simpl.
  - split; [tauto|]. intros [H|H]; [done|]. by apply not_elem_of_nil in H.
  - rewrite IH, elem_of_cons. unfold step. destruct (decide (k1 ∈ acc)).
    + intuition congruence.
    + rewrite elem_of_app, list_elem_of_singleton. intuition.
Qed.

Lemma nodup_dedup_fold l acc : NoDup acc -> NoDup (fold_left step l acc).
Proof.
  revert acc. induction l as [|k1 l IH]; intros acc H; simpl; [done|].
  apply IH. unfold step. destruct (decide (k1 ∈ acc)); [done|].
  apply NoDup_app. repeat split; [done| |apply NoDup_singleton].
  intros x Hx ->%list_elem_of_singleton. done.
Qed.

Lemma elem_of_dedup l k : k ∈ dedup l <-> k ∈ l.
Proof.
  unfold dedup. fold step. rewrite elem_of_dedup_fold.
  split; [intros [H|H]; [by apply not_elem_of_nil in H|done] | by right].
Qed.

Lemma nodup_dedup l : NoDup (dedup l).
Proof. unfold dedup. fold step. apply nodup_dedup_fold. constructor. Qed.

Lemma dedup_snoc l k :
  dedup (l ++ [k]) = if decide (k ∈ l) then dedup l else dedup l ++ [k].
Proof.
  unfold dedup at 1. rewrite fold_left_app. simpl.
  destruct (decide (k ∈ l)) as [H|H].
  - rewrite decide_True; [done|]. by apply (proj2 (elem_of_dedup l k)).
  - rewrite decide_False; [done|]. intros Hd. apply H. by apply (proj1 (elem_of_dedup l k)).
Qed.
End Dedup.

Definition gb_step (inherited : string -> bool) :=
  fun (acc : option (list (string * list A))) item =>
    match acc with
    | None => None
    | Some hash =>
        let k := grp item in
        if String.eqb k "length" || inherited k then None
        else match get k hash with
             | Some g => Some (replace k (g ++ [item]) hash)
             | None => Some (set hash k [item])
             end
    end.

Lemma groupBy_fold inherited l :
  groupBy inherited l grp =
  match fold_left (gb_step inherited) l (Some []) with
  | Some hash => Some (map snd hash) | None => None end.
Proof. done. Qed.

Definition gb_inv (p : list A) (hash : list (string * list A)) (I Nk : list string) : Prop :=
  hash = map (fun k => (k, filter (fun x => grp x = k) p)) (I ++ Nk) /\
  Forall (fun k => is_Some (array_index k)) I /\ StronglySorted index_le I /\
  Nk = dedup (filter (fun k => array_index k = None) (map grp p)) /\
  (forall k, k ∈ I ++ Nk <-> k ∈ map grp p) /\ NoDup (I ++ Nk).

Ltac split_inv := split; [|split; [|split; [|split; [|split]]]].

Lemma gb_inv_nil : gb_inv [] [] [] [].
Proof. split_inv; try constructor; done. Qed.

Lemma filter_snoc_key p x k :
  filter (fun y => grp y = k) (p ++ [x]) =
  if decide (grp x = k) then filter (fun y => grp y = k) p ++ [x]
  else filter (fun y => grp y = k) p.
Proof.
  rewrite filter_app. simpl. rewrite filter_cons, filter_nil.
  destruct (decide (grp x = k)); [done|]. by rewrite app_nil_r.
Qed.

Lemma filter_key_nil p k : k ∉ map grp p -> filter (fun y => grp y = k) p = [].
Proof.
  induction p as [|y p IH]; intros H; [done|].
  simpl in H. rewrite elem_of_cons in H.
  rewrite filter_cons, decide_False; [apply IH; tauto|]. intros Heq. apply H. by left.
Qed.

Lemma gb_inv_step inherited p hash I Nk x :
  gb_inv p hash I Nk -> grp x <> "length" -> inherited (grp x) = false ->
  exists I' Nk', gb_step inherited (Some hash) x = Some (
    map (fun k => (k, filter (fun y => grp y = k) (p ++ [x]))) (I' ++ Nk')) /\
    gb_inv (p ++ [x]) (map (fun k => (k, filter (fun y => grp y = k) (p ++ [x]))) (I' ++ Nk'))
      I' Nk'.
Proof.
  intros (-> & HI & Hs & HN & Hmem & Hnd) Hlen Hinh. simpl.
  assert (Hl : String.eqb (grp x) "length" = false) by (by apply String.eqb_neq).
  rewrite Hl, Hinh. simpl.
  rewrite get_map_keys.
  assert (Hmap : map grp (p ++ [x]) = map grp p ++ [grp x]) by (by rewrite map_app).
  destruct (decide (grp x ∈ I ++ Nk)) as [Hin|Hout].
  - (* the group exists: [acc[k].push(item)] *)
    exists I, Nk. split.
    + f_equal. rewrite replace_map_keys by done. apply map_ext. intros k'.
      rewrite filter_snoc_key.
      destruct (String.eqb_spec (grp x) k') as [<-|Hne];
        [by rewrite decide_True | by rewrite decide_False].
    + split_inv; try done.
      * rewrite Hmap, filter_app, HN. simpl. rewrite filter_cons, filter_nil.
        destruct (decide (array_index (grp x) = None)); [|by rewrite app_nil_r].
        rewrite dedup_snoc, decide_True; [done|].
        apply list_elem_of_filter. split; [done|]. by apply Hmem.
      * intros k. rewrite Hmem, Hmap, elem_of_app, list_elem_of_singleton.
        split; [by left|]. intros [H| ->]; [done|]. by apply Hmem.
  - (* a new group: [acc[k] = []] *)
    assert (Hnew : grp x ∉ map grp p) by (by rewrite <- Hmem).
    assert (Hold : forall k, k ∈ I ++ Nk ->
      filter (fun y => grp y = k) p = filter (fun y => grp y = k) (p ++ [x])).
    { intros k Hk. rewrite filter_snoc_key, decide_False; [done|]. intros Heq. apply Hout. by rewrite Heq. }
    assert (Hfx : [x] = filter (fun y => grp y = grp x) (p ++ [x])).
    { rewrite filter_snoc_key, decide_True by done.
      by rewrite filter_key_nil. }
    assert (Hre : map (fun k => (k, filter (fun y => grp y = k) p)) (I ++ Nk) =
                  map (fun k => (k, filter (fun y => grp y = k) (p ++ [x]))) (I ++ Nk)).
    { apply map_ext_in. intros k Hk%list_elem_of_In. by rewrite Hold. }
    assert (HNnon : Forall (fun k => array_index k = None) Nk).
    { rewrite HN. apply List.Forall_forall. intros k Hk%list_elem_of_In.
      apply elem_of_dedup, list_elem_of_filter in Hk. tauto. }
    unfold set. rewrite get_map_keys, decide_False by done.
    rewrite Hre.
    destruct (array_index (grp x)) as [n|] eqn:Hidx.
    + destruct (insert_index_map (fun k => filter (fun y => grp y = k) (p ++ [x]))
                  I Nk (grp x) n HI Hs HNnon Hidx) as (I' & Heq & Hp & Hs' & HI').
      rewrite <- Hfx in Heq. exists I', Nk. rewrite Heq. split; [done|].
      split_inv; try done.
      * rewrite Hmap, filter_app, HN. simpl. rewrite filter_cons, filter_nil.
        rewrite decide_False by congruence. by rewrite app_nil_r.
      * intros k. pose proof (Hmem k) as Hk. rewrite elem_of_app in Hk.
        rewrite Hmap, !elem_of_app, list_elem_of_singleton, Hp, elem_of_cons.
        intuition congruence.
      * rewrite Hp. simpl. by constructor.
    + exists I, (Nk ++ [grp x]). split.
      * f_equal. rewrite app_assoc, (map_app _ (I ++ Nk) [grp x]). cbn [map]. by rewrite <- Hfx.
      * split_inv; try done.
        -- rewrite Hmap, filter_app, HN. simpl. rewrite filter_cons, filter_nil.
           rewrite decide_True by done. rewrite dedup_snoc, decide_False; [done|].
           intros Hf%list_elem_of_filter. tauto.
        -- intros k. pose proof (Hmem k) as Hk. rewrite elem_of_app in Hk.
           rewrite Hmap, !elem_of_app, list_elem_of_singleton. tauto.
        -- rewrite app_assoc. apply NoDup_app. repeat split; [done| |apply NoDup_singleton].
           intros y Hy ->%list_elem_of_singleton. done.
Qed.

Lemma gb_fold inherited l p hash I Nk :
  gb_inv p hash I Nk ->
  Forall (fun x => grp x <> "length" /\ inherited (grp x) = false) l ->
  exists I' Nk', fold_left (gb_step inherited) l (Some hash) =
    Some (map (fun k => (k, filter (fun y => grp y = k) (p ++ l))) (I' ++ Nk')) /\
    gb_inv (p ++ l) (map (fun k => (k, filter (fun y => grp y = k) (p ++ l))) (I' ++ Nk'))
      I' Nk'.
Proof.
  revert p hash I Nk. induction l as [|x l IH]; intros p hash I Nk Hinv Hok; cbn [fold_left].
  - exists I, Nk. rewrite app_nil_r. destruct Hinv as [Hh Hr]. rewrite <- Hh. done.
  - inversion Hok as [|? ? [Hlen Hinh] Hok']; subst.
    destruct (gb_inv_step inherited p hash I Nk x Hinv Hlen Hinh) as (I1 & N1 & -> & Hinv1).
    destruct (IH _ _ _ _ Hinv1 Hok') as (I' & Nk' & Heq & Hinv').
    exists I', Nk'. by rewrite <- app_assoc in Heq, Hinv'.
Qed.

Lemma gb_fold_None inherited l : fold_left (gb_step inherited) l None = None.
Proof. induction l; done. Qed.

End GroupBy.

Section HelperTheorems.
Import JS SettingsReducer.

(** [mergeBetter(a, b)] (part_000, line 461): unless both arguments are
    objects (not [null], not functions) the result is [b] itself; for two
    objects it is a fresh plain object whose own keys are the enumerable
    own keys of [a] and [b].  A key of [a] holds [mergeBetter(a[k], b[k])]
    when [b] has [k] as an own property, enumerable or not (ramda's [_has]
    is [hasOwnProperty]), and [a[k]] otherwise; a key only [b] has
    enumerably holds [b[k]].  (For own keys other than ["__proto__"],
    whose assignment the model does not cover.) *)
Theorem mergeBetter_spec :
  (forall a b,
     (forall cls1 pa ha cls2 pb hb, a = Obj cls1 pa ha -> b = Obj cls2 pb hb -> False) ->
     mergeBetter a b = b) /\
  (forall cls1 pa ha cls2 pb hb,
     NoDup (pa ++ ha).*1 -> NoDup (pb ++ hb).*1 -> "__proto__" ∉ pa.*1 -> "__proto__" ∉ pb.*1 ->
     exists ps, mergeBetter (Obj cls1 pa ha) (Obj cls2 pb hb) = Obj "Object" ps [] /\
       NoDup ps.*1 /\
       forall k, get k ps = match get k pa, get k (pb ++ hb) with
                            | Some va, Some vb => Some (mergeBetter va vb)
                            | Some va, None => Some va
                            | None, _ => get k pb
                            end).
Proof.
  split; [exact mergeBetter_not_obj|].
  intros cls1 pa ha cls2 pb hb Ha Hb _ _.
  rewrite fmap_app in Ha, Hb. apply NoDup_app in Ha as [Ha _], Hb as [Hb _].
  destruct (merge_props_spec pa pb hb Ha Hb) as [Hnd Hget].
  eexists. rewrite mergeBetter_obj. split; [reflexivity|]. split; [exact Hnd|exact Hget].
Qed.

Lemma mergeBetter_spec_witness :
  mergeBetter (Num 1%float) (Obj "Object" [] []) = Obj "Object" [] [] /\
  mergeBetter (Obj "Object" [("a", Null)] []) Null = Null /\
  mergeBetter (Obj "Object" [("length", Num 5%float)] [])
              (Obj "Array" [("0", Num 7%float)] [("length", Num 1%float)]) =
    Obj "Object" [("0", Num 7%float); ("length", Num 1%float)] [] /\
  (exists ps,
    mergeBetter (Obj "Object" [("length", Num 5%float)] [])
                (Obj "Array" [("0", Num 7%float)] [("length", Num 1%float)]) =
      Obj "Object" ps [] /\ NoDup ps.*1 /\
    forall k, get k ps =
      match get k [("length", Num 5%float)], get k ([("0", Num 7%float)] ++ [("length", Num 1%float)]) with
      | Some va, Some vb => Some (mergeBetter va vb)
      | Some va, None => Some va
      | None, _ => get k [("0", Num 7%float)]
      end) /\
  exists ps,
    mergeBetter (Obj "Object" [("font", Str "Consolas"); ("keys", Obj "Object" [("x", Num 1%float)] [])] [])
                (Obj "Array" [("keys", Obj "Object" [("y", Num 2%float)] []); ("0", Bool true)] []) =
      Obj "Object" ps [] /\ NoDup ps.*1 /\
    forall k, get k ps =
      match get k [("font", Str "Consolas"); ("keys", Obj "Object" [("x", Num 1%float)] [])],
            get k ([("keys", Obj "Object" [("y", Num 2%float)] []); ("0", Bool true)] ++ []) with
      | Some va, Some vb => Some (mergeBetter va vb)
      | Some va, None => Some va
      | None, _ => get k [("keys", Obj "Object" [("y", Num 2%float)] []); ("0", Bool true)]
      end.
Proof.
  split; [|split; [|split; [|split]]].
  - apply (proj1 mergeBetter_spec). intros ? ? ? ? ? ? H. discriminate H.
  - apply (proj1 mergeBetter_spec). intros ? ? ? ? ? ? _ H. discriminate H.
  - vm_compute. reflexivity.
  - apply (proj2 mergeBetter_spec); vm_compute; [repeat constructor; set_solver..|set_solver|set_solver].
  - apply (proj2 mergeBetter_spec); vm_compute; [repeat constructor; set_solver..|set_solver|set_solver].
Defined.

(** [groupBy(lst, grp)] (part_000, lines 462-474), when no key is
    ["length"] or a name arrays inherit ([inherited]): one group per
    distinct key, holding the items with that key in their order in
    [lst]; the groups of array-index keys come first, by numeric index,
    then the other groups in the order their key first occurs. *)
Theorem groupBy_groups {A} (inherited : string -> bool) (lst : list A) (grp : A -> string) :
  Forall (fun x => grp x <> "length" /\ inherited (grp x) = false) lst ->
  exists I Nk,
    groupBy inherited lst grp = Some (map (fun k => filter (fun x => grp x = k) lst) (I ++ Nk)) /\
    NoDup (I ++ Nk) /\
    (forall k, k ∈ I ++ Nk <-> exists x, x ∈ lst /\ grp x = k) /\
    Forall (fun k => is_Some (array_index k)) I /\ StronglySorted index_le I /\
    Nk = dedup (filter (fun k => array_index k = None) (map grp lst)).
Proof.
  intros Hok.
  destruct (gb_fold grp inherited lst [] [] [] [] (gb_inv_nil grp) Hok)
    as (I & Nk & Heq & Hh & HI & Hs & HN & Hmem & Hnd).
  exists I, Nk. rewrite groupBy_fold. fold (gb_step grp inherited). rewrite Heq.
  simpl in *. split; [by rewrite map_map|]. split; [done|]. split.
  - intros k. rewrite Hmem. change (map grp lst) with (grp <$> lst).
    rewrite list_elem_of_fmap. split; intros (x & H1 & H2); eauto.
  - done.
Qed.

Lemma groupBy_groups_witness :
  groupBy es2023_array_inherited
    [("b", 1%nat); ("10", 2%nat); ("a", 3%nat); ("2", 4%nat); ("b", 5%nat)] fst =
  Some [[("2", 4%nat)]; [("10", 2%nat)]; [("b", 1%nat); ("b", 5%nat)]; [("a", 3%nat)]] /\
  exists I Nk,
    groupBy es2023_array_inherited
      [("b", 1%nat); ("10", 2%nat); ("a", 3%nat); ("2", 4%nat); ("b", 5%nat)] fst =
    Some (map (fun k => filter (fun x => fst x = k)
                [("b", 1%nat); ("10", 2%nat); ("a", 3%nat); ("2", 4%nat); ("b", 5%nat)])
              (I ++ Nk)) /\
    NoDup (I ++ Nk) /\
    (forall k, k ∈ I ++ Nk <-> exists x,
       x ∈ [("b", 1%nat); ("10", 2%nat); ("a", 3%nat); ("2", 4%nat); ("b", 5%nat)] /\ fst x = k) /\
    Forall (fun k => is_Some (array_index k)) I /\ StronglySorted index_le I /\
    Nk = dedup (filter (fun k => array_index k = None)
                  (map fst [("b", 1%nat); ("10", 2%nat); ("a", 3%nat); ("2", 4%nat); ("b", 5%nat)])).
Proof.
  split; [vm_compute; reflexivity|].
  apply groupBy_groups. repeat constructor; vm_compute; discriminate.
Defined.

(** [settingsReducer] (part_001, lines 21-32) returns [state] itself, and
    assigns nothing, for an action of any other type; with no [state] it
    returns the default settings. *)
Theorem settingsReducer_other_action now state action :
  prop action "type" <> Str updateSettings ->
  prop action "type" <> Str updateEditorRatio ->
  action <> Null ->
  settingsReducer now state action =
    let s := match state with Undefined => default_state | s => s end in Some (s, s).
Proof.
  intros H1 H2 H3. unfold settingsReducer.
  destruct action as [| | | | | |ca pa ha]; try done.
  simpl in H1, H2 |- *.
  destruct (match get "type" (pa ++ ha) with Some v => v | None => Undefined end)
    as [| | | | t| |]; try done.
  destruct (String.eqb_spec t updateSettings) as [->|]; [done|].
  destruct (String.eqb_spec t updateEditorRatio) as [->|]; done.
Qed.

Lemma settingsReducer_other_action_witness :
  settingsReducer 7%float Undefined (Obj "Object" [("type", Str "@@redux/INIT")] []) =
    Some (default_state, default_state).
Proof.
  apply (settingsReducer_other_action 7%float Undefined); vm_compute; discriminate.
Defined.

Lemma settingsReducer_update_eq now cls ps hs action :
  prop action "type" = Str updateSettings ->
  settingsReducer now (Obj cls ps hs) action =
    Some (mergeBetter (set_updated cls ps hs now) (prop action "payload"),
          set_updated cls ps hs now).
Proof.
  intros Ht. unfold settingsReducer.
  destruct action as [| | | | | |ca pa ha]; try discriminate Ht.
  cbn zeta. cbn match. rewrite Ht. by rewrite String.eqb_refl.
Qed.

Lemma set_updated_enumerable cls ps hs now :
  "updated" ∉ hs.*1 -> set_updated cls ps hs now = Obj cls (set ps "updated" (Num now)) hs.
Proof.
  intros H. unfold set_updated. apply get_None_not_in in H. by rewrite H.
Qed.

(** [settingsReducer] on [settings_update] with an object payload, for a
    [state] whose [updated] (if any) is enumerable: the [state] passed in
    gets [updated] set to the current time, and the result is a fresh
    object where each key of the state is merged by [mergeBetter] with
    the payload's own property of that key if there is one, [updated] is
    the payload's if it has one and the current time otherwise, and the
    other enumerable keys of the payload are copied. *)
Theorem settingsReducer_update now cls ps hs action c pp hp :
  prop action "type" = Str updateSettings -> prop action "payload" = Obj c pp hp ->
  NoDup (ps ++ hs).*1 -> NoDup (pp ++ hp).*1 -> "updated" ∉ hs.*1 ->
  "__proto__" ∉ ps.*1 -> "__proto__" ∉ pp.*1 ->
  exists ps',
    settingsReducer now (Obj cls ps hs) action =
      Some (Obj "Object" ps' [], Obj cls (set ps "updated" (Num now)) hs) /\
    get "updated" ps' = Some (match get "updated" (pp ++ hp) with Some v => v | None => Num now end) /\
    forall k, k <> "updated" ->
      get k ps' = match get k ps, get k (pp ++ hp) with
                  | Some va, Some vb => Some (mergeBetter va vb)
                  | Some va, None => Some va
                  | None, _ => get k pp
                  end.
Proof.
  intros Ht Hp Hps Hpp Hu _ _.
  rewrite (settingsReducer_update_eq now cls ps hs action Ht), Hp, set_updated_enumerable by done.
  rewrite fmap_app in Hps, Hpp. apply NoDup_app in Hps as [Hps _], Hpp as [Hpp _].
  destruct (merge_props_spec (set ps "updated" (Num now)) pp hp (nodup_set _ _ _ Hps) Hpp)
    as [_ Hget].
  eexists. rewrite mergeBetter_obj. split; [reflexivity|]. split.
  - rewrite Hget, get_set, String.eqb_refl. by destruct (get "updated" (pp ++ hp)) as [[]|].
  - intros k Hk. rewrite Hget, get_set. apply String.eqb_neq in Hk. by rewrite Hk.
Qed.

Lemma settingsReducer_update_witness :
  exists ps',
    settingsReducer 7%float default_state
      (Obj "Object" [("type", Str updateSettings);
                     ("payload", Obj "Object" [("theme", Num 2%float)] [])] []) =
      Some (Obj "Object" ps' [],
            Obj "Object" (set [("font", Str "Consolas"); ("fontSize", Num 13%float);
                ("editorMode", Num 0%float); ("tabWidth", Num 1%float);
                ("theme", Num 1%float); ("offlineMode", Num 0%float);
                ("editorRatio", Num 0.5%float); ("updated", Num 0%float)] "updated" (Num 7%float)) []) /\
    get "updated" ps' = Some (match get "updated" ([("theme", Num 2%float)] ++ []) with
                              | Some v => v | None => Num 7%float end) /\
    forall k, k <> "updated" ->
      get k ps' = match get k [("font", Str "Consolas"); ("fontSize", Num 13%float);
                ("editorMode", Num 0%float); ("tabWidth", Num 1%float);
                ("theme", Num 1%float); ("offlineMode", Num 0%float);
                ("editorRatio", Num 0.5%float); ("updated", Num 0%float)],
                        get k ([("theme", Num 2%float)] ++ []) with
                  | Some va, Some vb => Some (mergeBetter va vb)
                  | Some va, None => Some va
                  | None, _ => get k [("theme", Num 2%float)]
                  end.
Proof.
  apply (settingsReducer_update 7%float "Object" _ [] _ "Object" [("theme", Num 2%float)] []);
    vm_compute; try reflexivity; [repeat constructor; set_solver..|set_solver|set_solver|set_solver].
Defined.

(** [settingsReducer] on [settings_update] whose payload is not an object
    ([undefined], [null], a number, ...): [mergeBetter] returns the payload,
    so the whole settings state is replaced by it; the [state] passed in
    still gets [updated] assigned. *)
Theorem settingsReducer_update_non_object now cls ps hs action :
  prop action "type" = Str updateSettings ->
  (forall c pp hp, prop action "payload" <> Obj c pp hp) ->
  settingsReducer now (Obj cls ps hs) action =
    Some (prop action "payload", set_updated cls ps hs now).
Proof.
  intros Ht Hp. rewrite (settingsReducer_update_eq now cls ps hs action Ht).
  rewrite mergeBetter_not_obj; [done|]. intros ? ? ? c pp hp _ H. by apply (Hp c pp hp).
Qed.

Lemma settingsReducer_update_non_object_witness :
  settingsReducer 7%float default_state (Obj "Object" [("type", Str updateSettings)] []) =
    Some (Undefined,
          Obj "Object" (set [("font", Str "Consolas"); ("fontSize", Num 13%float);
                ("editorMode", Num 0%float); ("tabWidth", Num 1%float);
                ("theme", Num 1%float); ("offlineMode", Num 0%float);
                ("editorRatio", Num 0.5%float); ("updated", Num 0%float)] "updated" (Num 7%float)) []).
Proof.
  apply (settingsReducer_update_non_object 7%float "Object" _ []
           (Obj "Object" [("type", Str updateSettings)] [])).
  - reflexivity.
  - intros c pp hp. vm_compute. discriminate.
Defined.

(** [settingsReducer] on [settings_editor_ratio_update], for a [state]
    whose [updated] (if any) is enumerable: the result is a fresh object
    with [editorRatio] set to [mergeBetter(state.editorRatio, payload)]
    (the payload when either is not an object), [updated] to the current
    time, and every other enumerable key of [state] unchanged; the
    [state] passed in gets [updated] assigned. *)
Theorem settingsReducer_editor_ratio now cls ps hs action :
  prop action "type" = Str updateEditorRatio ->
  NoDup ps.*1 -> "updated" ∉ hs.*1 -> "__proto__" ∉ ps.*1 ->
  exists ps',
    settingsReducer now (Obj cls ps hs) action =
      Some (Obj "Object" ps' [], Obj cls (set ps "updated" (Num now)) hs) /\
    get "editorRatio" ps' =
      Some (match get "editorRatio" ps with
            | Some va => mergeBetter va (prop action "payload")
            | None => prop action "payload"
            end) /\
    get "updated" ps' = Some (Num now) /\
    forall k, k <> "editorRatio" -> k <> "updated" -> get k ps' = get k ps.
Proof.
  intros Ht Hps Hu _.
  assert (Heq : settingsReducer now (Obj cls ps hs) action =
    Some (mergeBetter (Obj cls (set ps "updated" (Num now)) hs)
            (Obj "Object" [("editorRatio", prop action "payload")] []),
          Obj cls (set ps "updated" (Num now)) hs)).
  { unfold settingsReducer. destruct action as [| | | | | |ca pa ha]; try discriminate Ht.
    cbn zeta. cbn match. rewrite Ht, set_updated_enumerable by done. done. }
  rewrite Heq.
  destruct (merge_props_spec (set ps "updated" (Num now)) [("editorRatio", prop action "payload")] []
              (nodup_set _ _ _ Hps) ltac:(repeat constructor; set_solver)) as [_ Hget].
  eexists. rewrite mergeBetter_obj. split; [reflexivity|]. split; [|split].
  - rewrite Hget, get_set. simpl. by destruct (get "editorRatio" ps).
  - rewrite Hget, get_set. simpl. done.
  - intros k H1 H2. rewrite Hget, get_set. apply String.eqb_neq in H1, H2.
    simpl. rewrite H1, H2. by destruct (get k ps).
Qed.

Lemma settingsReducer_editor_ratio_witness :
  exists ps',
    settingsReducer 7%float default_state
      (Obj "Object" [("type", Str updateEditorRatio); ("payload", Num 0.25%float)] []) =
      Some (Obj "Object" ps' [],
            Obj "Object" (set [("font", Str "Consolas"); ("fontSize", Num 13%float);
                ("editorMode", Num 0%float); ("tabWidth", Num 1%float);
                ("theme", Num 1%float); ("offlineMode", Num 0%float);
                ("editorRatio", Num 0.5%float); ("updated", Num 0%float)] "updated" (Num 7%float)) []) /\
    get "editorRatio" ps' = Some (mergeBetter (Num 0.5%float) (Num 0.25%float)) /\
    get "updated" ps' = Some (Num 7%float) /\
    forall k, k <> "editorRatio" -> k <> "updated" ->
      get k ps' = get k [("font", Str "Consolas"); ("fontSize", Num 13%float);
                ("editorMode", Num 0%float); ("tabWidth", Num 1%float);
                ("theme", Num 1%float); ("offlineMode", Num 0%float);
                ("editorRatio", Num 0.5%float); ("updated", Num 0%float)].
Proof.
  destruct (settingsReducer_editor_ratio 7%float "Object"
              [("font", Str "Consolas"); ("fontSize", Num 13%float);
               ("editorMode", Num 0%float); ("tabWidth", Num 1%float);
               ("theme", Num 1%float); ("offlineMode", Num 0%float);
               ("editorRatio", Num 0.5%float); ("updated", Num 0%float)] []
              (Obj "Object" [("type", Str updateEditorRatio); ("payload", Num 0.25%float)] []))
    as (ps' & H1 & H2 & H3 & H4);
    [reflexivity | vm_compute; repeat constructor; set_solver | set_solver
    | vm_compute; set_solver |].
  exists ps'. split; [exact H1|]. split; [exact H2|]. split; [exact H3|exact H4].
Defined.

End HelperTheorems.
